(** * Wine review summarizer: chunking, length budget, reducer, validator

    A shallow embedding of [wine_review_summarizer.py] ([chunk_text],
    [summarize_group], the [apply] over groups in [main]) and of
    [data/validator.py] ([validate_wine_reviews]), with the properties of
    the design document stated over it.

    The HuggingFace tokenizer and summarization pipeline are external: they
    are interfaces here ([Tokenizer], [Summarizer]); concrete instances are
    only used to run the code on examples. *)

From Stdlib Require Import ZArith List String Ascii QArith Qround Bool.
From Stdlib Require Import Lia ZifyNat.
From Stdlib Require Import DecimalString.
Import ListNotations.

Set Implicit Arguments.

(** ** The Python builtins the two files use *)

Module Py.

(** The exceptions this code can raise by itself. *)
Inductive exn : Type :=
| ValueError   (* range() arg 3 must not be zero *)
| IndexError.  (* list index out of range *)

(** [inl e]: the call raised [e]; [inr v]: it returned [v]. *)
Definition result (A : Type) : Type := (exn + A)%type.

(** [len(range(start, stop, step))] for [step > 0]. *)
Definition range_len_up (start stop step : Z) : Z :=
  if (start <? stop)%Z then ((stop - start - 1) / step + 1)%Z else 0%Z.

(** [range(start, stop, step)]: a zero step raises, a positive step counts
    up to (excluding) [stop], a negative step counts down. *)
Definition range (start stop step : Z) : result (list Z) :=
  if (step =? 0)%Z then inl ValueError
  else
    let n := if (0 <? step)%Z then range_len_up start stop step
             else range_len_up stop start (- step) in
    inr (map (fun k => (start + Z.of_nat k * step)%Z) (seq 0 (Z.to_nat n))).

(** A slice bound as Python normalises it: negative bounds count from the
    end, and all bounds are clamped to [0 .. len]. *)
Definition clamp_index (len i : Z) : Z :=
  if (i <? 0)%Z then Z.max 0 (len + i) else Z.min i len.

(** [l[i:j]] *)
Definition slice {A} (l : list A) (i j : Z) : list A :=
  let len := Z.of_nat (List.length l) in
  let lo := clamp_index len i in
  let hi := clamp_index len j in
  firstn (Z.to_nat (hi - lo)) (skipn (Z.to_nat lo) l).

(** [l[i]]: raises [IndexError] out of range. *)
Definition index {A} (l : list A) (i : Z) : result A :=
  let len := Z.of_nat (List.length l) in
  let k := if (i <? 0)%Z then (len + i)%Z else i in
  if (k <? 0)%Z then inl IndexError
  else match nth_error l (Z.to_nat k) with
       | Some x => inr x
       | None => inl IndexError
       end.

(** [sep.join(l)] *)
Fixpoint join (sep : string) (l : list string) : string :=
  match l with
  | [] => EmptyString
  | x :: rest =>
      match rest with
      | [] => x
      | _ :: _ => (x ++ sep ++ join sep rest)%string
      end
  end.

(** [int(x)] on a number: truncation toward zero. *)
Definition int_of (q : Q) : Z :=
  if Qle_bool 0 q then Qfloor q else Qceiling q.

(** [s.startswith(p)] *)
Definition startswith (s p : string) : bool := String.prefix p s.

(** [s.split(sep, 1)[0]] for a one-character separator: the text before
    the first separator, or all of [s] when there is none. *)
Fixpoint before_first (sep : ascii) (s : string) : string :=
  match s with
  | EmptyString => EmptyString
  | String c rest =>
      if Ascii.eqb c sep then EmptyString
      else String c (before_first sep rest)
  end.

(** [str(n)] for a natural number. *)
Definition str_of_nat (n : nat) : string :=
  NilZero.string_of_uint (Nat.to_uint n).

End Py.

Import Py.

(** ** wine_review_summarizer.py *)

(** [tokenizer]: [encode] is [tokenizer.encode(text, truncation=False)]
    (the model's special tokens included), [encode_plain] is
    [tokenizer.encode(text, add_special_tokens=False)], and [decode] is
    [tokenizer.decode(ids, skip_special_tokens=True)]. *)
Class Tokenizer : Type := {
  encode : string -> list Z;
  encode_plain : string -> list Z;
  decode : list Z -> string
}.

(** [summarizer(text, max_length=.., min_length=.., do_sample=False,
    truncation=True)[0]["summary_text"]]: greedy decoding, so a function of
    its arguments. *)
Class Summarizer : Type := {
  summarizer : string -> Z -> Z -> string
}.

(** One invocation of the summarization pipeline, as the reducer made it. *)
Record call : Type := {
  call_text : string;
  call_max_length : Z;
  call_min_length : Z
}.

(** Code that may raise and that invokes the pipeline: the calls made so
    far are threaded through, and are kept when an exception is raised. *)
Definition M (A : Type) : Type := list call -> result A * list call.

Definition ret {A} (x : A) : M A := fun log => (inr x, log).

Definition bind {A B} (m : M A) (k : A -> M B) : M B :=
  fun log =>
    match m log with
    | (inl e, log') => (inl e, log')
    | (inr x, log') => k x log'
    end.

Definition lift {A} (r : result A) : M A := fun log => (r, log).

Definition run {A} (m : M A) : result A * list call := m [].

Declare Scope reducer_scope.
Delimit Scope reducer_scope with reducer.
Notation "x <- m ;; k" := (bind m (fun x => k))
  (at level 61, m at next level, right associativity) : reducer_scope.

(** A [for] loop that appends one result per element. *)
Fixpoint for_each {A B} (f : A -> M B) (l : list A) : M (list B) :=
  match l with
  | [] => ret []
  | x :: rest =>
      (y <- f x ;;
       ys <- for_each f rest ;;
       ret (y :: ys))%reducer
  end.

(** The token windows of [chunk_text]:
    [for i in range(0, len(tokens), max_tokens): tokens[i:i + max_tokens]]. *)
Definition chunk_tokens (tokens : list Z) (max_tokens : Z)
  : result (list (list Z)) :=
  match range 0 (Z.of_nat (List.length tokens)) max_tokens with
  | inl e => inl e
  | inr starts =>
      inr (map (fun i => slice tokens i (i + max_tokens)) starts)
  end.

(** The number of iterations of that loop, and the window of the iteration
    numbered [k] (from 0) for a window size [size]. *)
Definition chunk_count (tokens : list Z) (max_tokens : Z) : nat :=
  Z.to_nat (range_len_up 0 (Z.of_nat (List.length tokens)) max_tokens).

Definition window_at {A} (size : nat) (l : list A) (k : nat) : list A :=
  firstn size (skipn (k * size) l).

(** [dynamic_max = min(max_len, max(min_len + 5, int(input_len * 0.8)))].
    The floating-point product is taken as the exact rational: for token
    counts below [2^50] the double nearest to [input_len * 0.8] truncates
    to the same integer. *)
Definition dynamic_max (max_len min_len input_len : Z) : Z :=
  Z.min max_len
        (Z.max (min_len + 5) (int_of (inject_Z input_len * (8 # 10)))).

(** The pair [(max_length, min_length)] handed to the pipeline for a chunk
    of [input_len] tokens: [max_length=dynamic_max, min_length=min_len]. *)
Definition length_budget (max_len min_len input_len : Z) : Z * Z :=
  (dynamic_max max_len min_len input_len, min_len).

(** The prompt prefix of [summarize_group]. *)
Definition intro : string :=
  String.append "Summarize the following reviews for a group of wines."
                (String (ascii_of_nat 10) EmptyString).

Section Reducer.

Context {tok : Tokenizer} {summ : Summarizer}.

(** [chunk_text(texts, max_tokens)] *)
Definition chunk_text (texts : list string) (max_tokens : Z)
  : result (list string) :=
  let combined := join " " texts in
  let tokens := encode combined in
  match chunk_tokens tokens max_tokens with
  | inl e => inl e
  | inr chunks => inr (map decode chunks)
  end.

Definition call_summarizer (text : string) (max_length min_length : Z)
  : M string :=
  fun log =>
    (inr (summarizer text max_length min_length),
     log ++ [{| call_text := text;
                call_max_length := max_length;
                call_min_length := min_length |}]).

(** The body of both [for chunk in ...] loops of [summarize_group]. *)
Definition summarize_chunk (max_len min_len : Z) (chunk : string)
  : M string :=
  let input_len := Z.of_nat (List.length (encode_plain chunk)) in
  let '(max_length, min_length) := length_budget max_len min_len input_len in
  call_summarizer (intro ++ chunk)%string max_length min_length.

(** What one iteration of those loops does for [chunk], written out: the
    invocation it makes and the summary it appends. *)
Definition call_of (max_len min_len : Z) (chunk : string) : call :=
  {| call_text := (intro ++ chunk)%string;
     call_max_length :=
       dynamic_max max_len min_len
                   (Z.of_nat (List.length (encode_plain chunk)));
     call_min_length := min_len |}.

Definition summary_of (max_len min_len : Z) (chunk : string) : string :=
  let c := call_of max_len min_len chunk in
  summarizer (call_text c) (call_max_length c) (call_min_length c).

(** [summarize_group(row, max_len, min_len)], with
    [reviews = row["review_texts"]]. *)
Definition summarize_group (reviews : list string) (max_len min_len : Z)
  : M string :=
  (chunks <- lift (chunk_text reviews 900) ;;
   summaries <- for_each (summarize_chunk max_len min_len) chunks ;;
   if (1 <? List.length summaries)%nat then
     let combined := join " " summaries in
     combined_chunks <- lift (chunk_text [combined] 900) ;;
     final_summaries <-
       for_each (summarize_chunk max_len min_len) combined_chunks ;;
     ret (join " " final_summaries)
   else
     lift (index summaries 0))%reducer.

(** [sample_groups.apply(summarize_group, axis=1)] in [main]: one call per
    group with the default bounds; an exception leaves the loop. *)
Definition apply_summarize_group (groups : list (list string))
  : M (list string) :=
  for_each (fun reviews => summarize_group reviews 80 30) groups.

End Reducer.

(** The tokenizer of the script, BART's, wraps every text it encodes in its
    special tokens [<s>] and [</s>], which [decode] skips: no text has zero
    tokens, not even the empty one. *)
Definition adds_special_tokens (tok : Tokenizer) : Prop :=
  forall text : string, encode text <> [].

(** ** data/validator.py *)

Definition expected_keys : list string :=
  [ "wine/name"; "wine/wineId"; "wine/variant"; "wine/year";
    "review/points"; "review/time"; "review/userId"; "review/userName";
    "review/text" ]%string.

Definition msg_not_aligned (len : Z) : string :=
  ("File length (" ++ str_of_nat (Z.to_nat len)
     ++ ") is not aligned with 10-line blocks.")%string.

Definition msg_missing_blank (record : Z) : string :=
  ("Missing blank line after record " ++ str_of_nat (Z.to_nat record)
     ++ ".")%string.

Definition msg_key (record j : Z) (expected_key line : string) : string :=
  ("Record " ++ str_of_nat (Z.to_nat record) ++ ", line "
     ++ str_of_nat (Z.to_nat j) ++ " expected key '" ++ expected_key
     ++ "' but found '" ++ before_first ":" line ++ "'")%string.

Definition msg_ok : string :=
  "All records are valid and formatted correctly."%string.

(** [for j, (expected_key, line) in enumerate(zip(expected_keys,
    record_lines))]: the message of the first line that does not start with
    its key and a colon, if any. [j] is the index of the head of [keys]. *)
Fixpoint check_keys (record j : Z) (keys record_lines : list string)
  : option string :=
  match keys, record_lines with
  | expected_key :: keys', line :: lines' =>
      if negb (startswith line (expected_key ++ ":")%string)
      then Some (msg_key record (j + 1) expected_key line)
      else check_keys record (j + 1) keys' lines'
  | _, _ => None
  end.

(** The body of [for i in range(0, len(lines), 10)]: [Some msg] when the
    function returns [(False, msg)] in this iteration. *)
Definition check_record (lines : list string) (i : Z)
  : result (option string) :=
  let record_lines := slice lines i (i + 9) in
  match index lines (i + 9) with
  | inl e => inl e
  | inr blank_line =>
      if ((i + 10 <? Z.of_nat (List.length lines))%Z
          && negb (String.eqb blank_line ""))%bool
      then inr (Some (msg_missing_blank (i / 10 + 1)))
      else inr (check_keys (i / 10 + 1) 0 expected_keys record_lines)
  end.

Fixpoint check_records (lines : list string) (starts : list Z)
  : result (bool * string) :=
  match starts with
  | [] => inr (true, msg_ok)
  | i :: rest =>
      match check_record lines i with
      | inl e => inl e
      | inr (Some msg) => inr (false, msg)
      | inr None => check_records lines rest
      end
  end.

(** The lines on which the checks run: a blank line is appended when the
    last record has none. *)
Definition padded (lines : list string) : list string :=
  if ((Z.of_nat (List.length lines) + 1) mod 10 =? 0)%Z
  then lines ++ [EmptyString] else lines.

(** [validate_wine_reviews(file_path)], from the list
    [lines = [line.rstrip("\n") for line in f]] on. *)
Definition validate_wine_reviews (file_lines : list string)
  : result (bool * string) :=
  let lines := padded file_lines in
  if negb (Z.of_nat (List.length lines) mod 10 =? 0)%Z
  then inr (false, msg_not_aligned (Z.of_nat (List.length lines)))
  else
    match range 0 (Z.of_nat (List.length lines)) 10 with
    | inl e => inl e
    | inr starts => check_records lines starts
    end.

(** The dataset format in the words of the design document: a record is 9
    lines [key: value] with the keys in the fixed order, and a file is a
    sequence of records, each followed by one blank line. *)
Definition key_value_line (key line : string) : Prop :=
  exists value : string, line = (key ++ ": " ++ value)%string.

Definition is_record (record : list string) : Prop :=
  Forall2 key_value_line expected_keys record.

Definition render (records : list (list string)) : list string :=
  List.concat (map (fun record => (record ++ [EmptyString])%list) records).

(** ** The length budget in the words of the design document

    [targetMax = min(callerMax, max(callerMin + 5, round(inputTokenLen * 0.8)))]
    with rounding to the nearest integer, and [targetMin = callerMin]. *)
Definition round_nearest (q : Q) : Z := Qfloor (q + (1 # 2)).

Definition budget_spec (inputTokenLen callerMin callerMax : Z) : Z * Z :=
  (Z.min callerMax
         (Z.max (callerMin + 5)
                (round_nearest (inject_Z inputTokenLen * (8 # 10)))),
   callerMin).

(** ** Stand-ins for the external tokenizer and pipeline, to run examples *)

Definition char_code (c : ascii) : Z := Z.of_N (N_of_ascii c).

Definition code_char (z : Z) : ascii := ascii_of_N (Z.to_N z).

(** One token per character and no special tokens. *)
Definition char_tokenizer : Tokenizer := {|
  encode := fun s => map char_code (list_ascii_of_string s);
  encode_plain := fun s => map char_code (list_ascii_of_string s);
  decode := fun ids => string_of_list_ascii (map code_char ids)
|}.

(** One token per character from id 4 on, wrapped in the special tokens
    [<s>] (0) and [</s>] (2) as BART's tokenizer does. *)
Definition bos_eos_tokenizer : Tokenizer := {|
  encode := fun s =>
    0%Z :: map (fun c => (4 + char_code c)%Z) (list_ascii_of_string s) ++ [2%Z];
  encode_plain := fun s =>
    map (fun c => (4 + char_code c)%Z) (list_ascii_of_string s);
  decode := fun ids =>
    string_of_list_ascii
      (map (fun z => code_char (z - 4)) (filter (fun z => (4 <=? z)%Z) ids))
|}.

(** A pipeline that answers with the first [max_length] characters of its
    input: it never exceeds the length it is given. *)
Definition lead_summarizer : Summarizer := {|
  summarizer := fun text max_length _ =>
    substring 0 (Z.to_nat max_length) text
|}.

(** A review of 10000 characters. *)
Definition long_review : string :=
  string_of_list_ascii (repeat "a"%char (Z.to_nat 10000)).

(** A well-formed record, to run the validator on examples. *)
Definition sample_record : list string :=
  [ "wine/name: Chateau A"; "wine/wineId: 17"; "wine/variant: Merlot";
    "wine/year: 2001"; "review/points: 91"; "review/time: 1182729600";
    "review/userId: 4"; "review/userName: ann"; "review/text: Ripe fruit."
  ]%string.

(** ** More Python builtins, for [load_wine_data] *)

(** [c.isspace()] for a character below 256: the ASCII white space, the
    separators 28 to 31, NEL (133) and the no-break space (160). *)
Definition is_space (c : ascii) : bool :=
  let n := nat_of_ascii c in
  ((9 <=? n) && (n <=? 13) || (28 <=? n) && (n <=? 32)
   || (n =? 133) || (n =? 160))%nat.

(** [s.lstrip()] *)
Fixpoint lstrip (s : string) : string :=
  match s with
  | EmptyString => EmptyString
  | String c rest => if is_space c then lstrip rest else s
  end.

(** [s.rstrip()] *)
Fixpoint rstrip (s : string) : string :=
  match s with
  | EmptyString => EmptyString
  | String c rest =>
      if is_space c then
        match rstrip rest with
        | EmptyString => EmptyString
        | String _ _ as kept => String c kept
        end
      else String c (rstrip rest)
  end.

(** [s.strip()] *)
Definition strip (s : string) : string := lstrip (rstrip s).

(** [sep in s] for a one-character separator. *)
Fixpoint contains (sep : ascii) (s : string) : bool :=
  match s with
  | EmptyString => false
  | String c rest => Ascii.eqb c sep || contains sep rest
  end.

(** [s.split(sep, 1)[1]] when [sep] is in [s]: the text after the first
    separator. *)
Fixpoint after_first (sep : ascii) (s : string) : string :=
  match s with
  | EmptyString => EmptyString
  | String c rest => if Ascii.eqb c sep then rest else after_first sep rest
  end.

(** A [dict] with string keys and values, in insertion order. *)
Definition dict : Type := list (string * string).

(** [d[key] = value]: an existing key keeps its place and takes the new
    value, a new key goes last. *)
Fixpoint dict_set (d : dict) (key value : string) : dict :=
  match d with
  | [] => [(key, value)]
  | (k, v) :: rest =>
      if String.eqb k key then (k, value) :: rest
      else (k, v) :: dict_set rest key value
  end.

(** [assign_rating_band(points)] *)
Definition assign_rating_band (points : Z) : string :=
  if (points <? 60)%Z then "50-59 (Very Poor)"
  else if (points <? 70)%Z then "60-69 (Poor)"
  else if (points <? 80)%Z then "70-79 (Average)"
  else if (points <? 85)%Z then "80-84 (Good)"
  else if (points <? 90)%Z then "85-89 (Very Good)"
  else if (points <? 95)%Z then "90-94 (Excellent)"
  else "95-100 (Perfect)".

Section Loader.

(** [html.unescape] *)
Variable unescape : string -> string.

(** One iteration of [for line in file] in [load_wine_data], on the pair
    [(records, current_record)]. *)
Definition load_step (state : list dict * dict) (raw_line : string)
  : list dict * dict :=
  let '(records, current_record) := state in
  let line := strip raw_line in
  if String.eqb line EmptyString then
    match current_record with
    | [] => (records, current_record)
    | _ :: _ => (records ++ [current_record], [])
    end
  else if contains ":" line then
    let key := before_first ":" line in
    let value := after_first ":" line in
    (records, dict_set current_record (strip key) (unescape (strip value)))
  else (records, current_record).

(** The list [records] of [load_wine_data] when the loop and the catch of
    the last record are done, from the lines the file yields. *)
Definition load_records (file : list string) : list dict :=
  let '(records, current_record) := fold_left load_step file ([], []) in
  match current_record with
  | [] => records
  | _ :: _ => records ++ [current_record]
  end.

(** The dict the loop builds from the nine lines of a record: the expected
    keys, each with the text after the first colon of its line, stripped
    and unescaped. *)
Definition record_dict (record : list string) : dict :=
  combine expected_keys
          (map (fun line => unescape (strip (after_first ":" line))) record).

End Loader.

(** ** Records as the validator accepts them *)

(** A record whose lines start with the expected keys and a colon. *)
Definition keyed_record (record : list string) : Prop :=
  Forall2 (fun key line => startswith line (key ++ ":") = true)
          expected_keys record.

(** ** The validator's checks, read position by position

    The file is cut into blocks of ten lines; in the block numbered [r]
    (from 0) the line [j < 9] is the one at [10 * r + j] and the separator
    is the one at [10 * r + 9]. *)

(** The line count is a multiple of 10, or one less. *)
Definition aligned (lines : list string) : Prop :=
  (List.length lines mod 10 = 0 \/ List.length lines mod 10 = 9)%nat.

(** Line [j] of block [r] is there and starts with key [j] and a colon. *)
Definition key_line_ok (lines : list string) (r j : nat) : Prop :=
  forall key,
    nth_error expected_keys j = Some key ->
    exists line,
      nth_error lines (10 * r + j) = Some line /\
      startswith line (key ++ ":") = true.

(** The separator of block [r] is blank, unless [r] is the last block. *)
Definition separator_ok (lines : list string) (r : nat) : Prop :=
  (10 * r + 10 < List.length lines)%nat ->
  nth_error lines (10 * r + 9) = Some EmptyString.

Definition block_ok (lines : list string) (r : nat) : Prop :=
  (forall j, key_line_ok lines r j) /\ separator_ok lines r.

(** Every character of [s] passes [p]. *)
Fixpoint all_chars (p : ascii -> bool) (s : string) : bool :=
  match s with
  | EmptyString => true
  | String c rest => p c && all_chars p rest
  end.

(** A character that is neither white space nor a colon. *)
Definition key_char (c : ascii) : bool :=
  negb (is_space c) && negb (Ascii.eqb c ":").

(** The lines of a text file as Python yields them: each with its line
    feed. *)
Definition newline : string := String (ascii_of_nat 10) EmptyString.

Definition with_newlines (lines : list string) : list string :=
  map (fun line => (line ++ newline)%string) lines.

(** * Properties *)

Ltac lia_mod := zify; Z.div_mod_to_equations; lia.

(** ** Python builtins *)

Section RangeSlice.

Variable A : Type.
Implicit Types (l : list A) (m n : Z).

Lemma range_up n m :
  (0 < m)%Z ->
  range 0 n m =
  inr (map (fun k => (Z.of_nat k * m)%Z)
           (seq 0 (Z.to_nat (range_len_up 0 n m)))).
Proof.
  intros Hm. unfold range.
  destruct (Z.eqb_spec m 0) as [->|_]; [lia|].
  destruct (Z.ltb_spec 0 m) as [_|]; [|lia].
  f_equal.
Qed.

Lemma range_down n m : (0 <= n)%Z -> (m < 0)%Z -> range 0 n m = inr [].
Proof.
  intros Hn Hm. unfold range, range_len_up.
  destruct (Z.eqb_spec m 0); [lia|].
  destruct (Z.ltb_spec 0 m); [lia|].
  destruct (Z.ltb_spec n 0); [lia|]. reflexivity.
Qed.

Lemma range_len_up_cover n m :
  (0 < m)%Z -> (0 <= n)%Z ->
  (0 <= range_len_up 0 n m /\ n <= range_len_up 0 n m * m)%Z.
Proof.
  intros Hm Hn. unfold range_len_up.
  destruct (Z.ltb_spec 0 n); [|lia].
  replace (n - 0 - 1)%Z with (n - 1)%Z by lia.
  pose proof (Z.div_pos (n - 1) m ltac:(lia) Hm).
  pose proof (Z.mul_succ_div_gt (n - 1) m Hm). lia.
Qed.

Lemma range_len_up_tight n m :
  (0 < m)%Z -> (0 < n)%Z ->
  (1 <= range_len_up 0 n m /\ (range_len_up 0 n m - 1) * m < n)%Z.
Proof.
  intros Hm Hn. unfold range_len_up.
  destruct (Z.ltb_spec 0 n); [|lia].
  replace (n - 0 - 1)%Z with (n - 1)%Z by lia.
  pose proof (Z.div_pos (n - 1) m ltac:(lia) Hm).
  pose proof (Z.mul_div_le (n - 1) m Hm). lia.
Qed.

(** A window that starts inside the list is [firstn] after [skipn]. *)
Lemma slice_window l (k : nat) m :
  (0 < m)%Z -> (k * Z.to_nat m <= List.length l)%nat ->
  slice l (Z.of_nat k * m) (Z.of_nat k * m + m) =
  firstn (Z.to_nat m) (skipn (k * Z.to_nat m) l).
Proof.
  intros Hm Hk. unfold slice, clamp_index.
  set (len := Z.of_nat (List.length l)).
  assert (Hkm : (Z.of_nat k * m <= len)%Z).
  { subst len. apply Nat2Z.inj_le in Hk.
    rewrite Nat2Z.inj_mul, Z2Nat.id in Hk by lia. exact Hk. }
  destruct (Z.ltb_spec (Z.of_nat k * m) 0); [nia|].
  destruct (Z.ltb_spec (Z.of_nat k * m + m) 0); [nia|].
  rewrite (Z.min_l (Z.of_nat k * m) len) by lia.
  replace (Z.to_nat (Z.of_nat k * m)) with (k * Z.to_nat m)%nat
    by (rewrite Z2Nat.inj_mul, Nat2Z.id by lia; reflexivity).
  destruct (Z.le_ge_cases (Z.of_nat k * m + m) len) as [Hin|Hout].
  - rewrite Z.min_l by lia. f_equal. lia.
  - rewrite Z.min_r by lia.
    rewrite !firstn_all2; [reflexivity| |]; rewrite length_skipn; subst len; lia.
Qed.

End RangeSlice.

Section Windows.

Variable A : Type.
Variable sz : nat.
Implicit Types (l : list A) (c k : nat).

Lemma concat_windows c : forall l,
  (List.length l <= c * sz)%nat ->
  List.concat (map (window_at sz l) (seq 0 c)) = l.
Proof.
  induction c as [|c IH]; intros l Hl.
  - destruct l; [reflexivity|simpl in Hl; lia].
  - cbn [seq]. rewrite <- seq_shift. cbn [map List.concat]. rewrite map_map.
    rewrite (map_ext (fun k => window_at sz l (S k)) (window_at sz (skipn sz l))).
    + rewrite IH by (rewrite length_skipn; lia).
      unfold window_at. cbn [Nat.mul skipn]. apply firstn_skipn.
    + intros k. unfold window_at. rewrite skipn_skipn. f_equal. f_equal. lia.
Qed.

Lemma length_window_at l k :
  List.length (window_at sz l k) = Nat.min sz (List.length l - k * sz).
Proof. unfold window_at. now rewrite length_firstn, length_skipn. Qed.

Lemma nth_error_windows l c i w :
  nth_error (map (window_at sz l) (seq 0 c)) i = Some w ->
  (i < c)%nat /\ w = window_at sz l i.
Proof.
  intros H. rewrite nth_error_map in H.
  destruct (nth_error (seq 0 c) i) as [k|] eqn:Hk; [|discriminate].
  assert (Hi : (i < c)%nat).
  { rewrite <- (length_seq c 0). apply nth_error_Some. congruence. }
  apply (nth_error_nth _ _ 0%nat) in Hk. rewrite seq_nth in Hk by assumption.
  cbn in H, Hk. subst k. split; [assumption|congruence].
Qed.

End Windows.

Section Chunker.

Implicit Types (tokens : list Z) (max_tokens : Z).

Lemma chunk_count_cover tokens max_tokens :
  (0 < max_tokens)%Z ->
  (List.length tokens <= chunk_count tokens max_tokens * Z.to_nat max_tokens)%nat.
Proof.
  intros Hm. unfold chunk_count.
  destruct (range_len_up_cover (n := Z.of_nat (List.length tokens)) Hm)
    as [H0 H1]; [lia|].
  apply Nat2Z.inj_le. rewrite Nat2Z.inj_mul, !Z2Nat.id by lia. exact H1.
Qed.

Lemma chunk_count_tight tokens max_tokens k :
  (0 < max_tokens)%Z -> (k < chunk_count tokens max_tokens)%nat ->
  (k * Z.to_nat max_tokens < List.length tokens)%nat.
Proof.
  intros Hm Hk. unfold chunk_count in Hk.
  destruct tokens as [|t tokens]; [cbn in Hk; lia|].
  destruct (range_len_up_tight (n := Z.of_nat (List.length (t :: tokens))) Hm)
    as [H1 H2]; [cbn [List.length]; lia|].
  apply Nat2Z.inj_lt. rewrite Nat2Z.inj_mul, Z2Nat.id by lia. nia.
Qed.

Lemma chunk_tokens_windows tokens max_tokens :
  (0 < max_tokens)%Z ->
  chunk_tokens tokens max_tokens =
  inr (map (window_at (Z.to_nat max_tokens) tokens)
           (seq 0 (chunk_count tokens max_tokens))).
Proof.
  intros Hm. unfold chunk_tokens. rewrite range_up by assumption.
  f_equal. rewrite map_map. apply map_ext_in. intros k Hk.
  apply in_seq in Hk. apply slice_window; [assumption|].
  apply Nat.lt_le_incl, chunk_count_tight; [assumption|]. apply Hk.
Qed.

End Chunker.

(** ** Chunker *)

(** C6: for [max_tokens > 0] the chunker returns, and the concatenation of
    its chunks, in order, is the token sequence it was given. *)
Theorem chunk_coverage (tokens : list Z) (max_tokens : Z) :
  (0 < max_tokens)%Z ->
  exists chunks,
    chunk_tokens tokens max_tokens = inr chunks /\
    List.concat chunks = tokens.
Proof.
  intros Hm. eexists. split; [apply chunk_tokens_windows; assumption|].
  apply concat_windows, chunk_count_cover, Hm.
Qed.

Lemma chunk_coverage_witness :
  (0 < 2)%Z /\
  exists chunks,
    chunk_tokens [11; 12; 13; 14; 15]%Z 2 = inr chunks /\
    List.concat chunks = [11; 12; 13; 14; 15]%Z.
Proof.
  split; [lia|]. apply (@chunk_coverage [11; 12; 13; 14; 15]%Z 2). lia.
Defined.

(** C7: for [max_tokens > 0] the chunker returns chunks of at most
    [max_tokens] tokens, every chunk that has a successor holds exactly
    [max_tokens] tokens, so that only the last one can be shorter; no chunk
    is empty. *)
Theorem chunk_bound (tokens : list Z) (max_tokens : Z) :
  (0 < max_tokens)%Z ->
  exists chunks,
    chunk_tokens tokens max_tokens = inr chunks /\
    (forall i chunk, nth_error chunks i = Some chunk ->
       (1 <= Z.of_nat (List.length chunk) <= max_tokens)%Z) /\
    (forall i chunk, nth_error chunks i = Some chunk ->
       (S i < List.length chunks)%nat ->
       Z.of_nat (List.length chunk) = max_tokens).
Proof.
  intros Hm. eexists. split; [apply chunk_tokens_windows; assumption|].
  split.
  - intros i chunk H. apply nth_error_windows in H as [Hi ->].
    rewrite length_window_at.
    pose proof (chunk_count_tight tokens Hm Hi). lia.
  - intros i chunk H Hlast. apply nth_error_windows in H as [Hi ->].
    rewrite length_map, length_seq in Hlast.
    rewrite length_window_at.
    pose proof (chunk_count_tight tokens Hm Hlast). lia.
Qed.

Lemma chunk_bound_witness :
  (0 < 2)%Z /\
  exists chunks,
    chunk_tokens [11; 12; 13; 14; 15]%Z 2 = inr chunks /\
    (forall i chunk, nth_error chunks i = Some chunk ->
       (1 <= Z.of_nat (List.length chunk) <= 2)%Z) /\
    (forall i chunk, nth_error chunks i = Some chunk ->
       (S i < List.length chunks)%nat ->
       Z.of_nat (List.length chunk) = 2%Z).
Proof.
  split; [lia|]. apply (@chunk_bound [11; 12; 13; 14; 15]%Z 2). lia.
Defined.

(** ** Length budget *)

Lemma int_of_four_fifths (n : Z) :
  (0 <= n)%Z -> int_of (inject_Z n * (8 # 10)) = (4 * n / 5)%Z.
Proof.
  intros Hn. unfold int_of.
  assert (Hle : Qle_bool 0 (inject_Z n * (8 # 10)) = true).
  { apply Qle_bool_iff. unfold Qle. cbn. lia. }
  rewrite Hle. cbn [Qfloor Qmult inject_Z Qnum Qden Pos.mul].
  replace (n * 8)%Z with (4 * n * 2)%Z by lia.
  change (Z.pos 10) with (5 * 2)%Z.
  apply Z.div_mul_cancel_r; lia.
Qed.

(** C1, as the code has it: [int(input_len * 0.8)] truncates, so for
    [input_len >= 0] the upper bound is
    [min(max_len, max(min_len + 5, floor(4 * input_len / 5)))]; the lower
    bound is [min_len] unchanged. *)
Theorem length_budget_truncates (max_len min_len input_len : Z) :
  (0 <= input_len)%Z ->
  length_budget max_len min_len input_len =
  (Z.min max_len (Z.max (min_len + 5) (4 * input_len / 5)), min_len).
Proof.
  intros Hn. unfold length_budget, dynamic_max.
  now rewrite int_of_four_fifths.
Qed.

Lemma length_budget_truncates_witness :
  (0 <= 47)%Z /\ length_budget 80 30 47 = (37, 30)%Z.
Proof.
  split; [lia|]. apply (@length_budget_truncates 80 30 47). lia.
Defined.

(** C1, as stated, fails: for a chunk of 47 tokens and the default bounds
    [(30, 80)] the code passes [max_length = 37] ([int(37.6)]), where
    rounding to the nearest integer gives 38. *)
Lemma length_budget_not_rounded :
  length_budget 80 30 47 = (37, 30)%Z /\
  budget_spec 47 30 80 = (38, 30)%Z /\
  length_budget 80 30 47 <> budget_spec 47 30 80.
Proof. repeat split; vm_compute; congruence. Qed.

(** ** Reducer *)

Section ReducerFacts.

Context {tok : Tokenizer} {summ : Summarizer}.
Variables max_len min_len : Z.

Lemma summarize_chunk_run chunk log :
  summarize_chunk max_len min_len chunk log =
  (inr (summary_of max_len min_len chunk),
   log ++ [call_of max_len min_len chunk]).
Proof. reflexivity. Qed.

Lemma for_each_summarize chunks : forall log,
  for_each (summarize_chunk max_len min_len) chunks log =
  (inr (map (summary_of max_len min_len) chunks),
   log ++ map (call_of max_len min_len) chunks).
Proof.
  induction chunks as [|chunk chunks IH]; intros log; cbn [for_each map].
  - unfold ret. now rewrite app_nil_r.
  - unfold bind at 1. rewrite summarize_chunk_run.
    unfold bind at 1. rewrite IH. unfold ret.
    now rewrite <- app_assoc.
Qed.

(** For a positive window size [chunk_text] returns: the decoded windows. *)
Lemma chunk_text_windows texts max_tokens :
  (0 < max_tokens)%Z ->
  chunk_text texts max_tokens =
  inr (map decode
           (map (window_at (Z.to_nat max_tokens) (encode (join " " texts)))
                (seq 0 (chunk_count (encode (join " " texts)) max_tokens)))).
Proof.
  intros Hm. unfold chunk_text. now rewrite chunk_tokens_windows.
Qed.

Lemma chunk_text_900 texts :
  exists chunks, chunk_text texts 900 = inr chunks.
Proof. eexists. apply chunk_text_windows. lia. Qed.

(** [summarize_group] run from the empty log, pass by pass. *)
Lemma summarize_group_run reviews chunks :
  chunk_text reviews 900 = inr chunks ->
  let summaries := map (summary_of max_len min_len) chunks in
  let calls := map (call_of max_len min_len) chunks in
  run (summarize_group reviews max_len min_len) =
  if (1 <? List.length chunks)%nat then
    match chunk_text [join " " summaries] 900 with
    | inl e => (inl e, calls)
    | inr combined_chunks =>
        (inr (join " " (map (summary_of max_len min_len) combined_chunks)),
         calls ++ map (call_of max_len min_len) combined_chunks)
    end
  else (index summaries 0, calls).
Proof.
  intros Hchunks summaries calls.
  unfold run, summarize_group. unfold bind at 1. unfold lift at 1.
  rewrite Hchunks. unfold bind at 1. rewrite for_each_summarize.
  cbn [app]. fold summaries calls.
  replace (List.length summaries) with (List.length chunks)
    by (subst summaries; now rewrite length_map).
  destruct (1 <? List.length chunks)%nat; [|reflexivity].
  unfold bind at 1. unfold lift at 1.
  destruct (chunk_text [join " " summaries] 900) as [e|cc]; [reflexivity|].
  unfold bind at 1. rewrite for_each_summarize. reflexivity.
Qed.

(** The chunks of a text that has tokens. *)
Lemma chunk_text_nonempty texts max_tokens :
  (0 < max_tokens)%Z -> encode (join " " texts) <> [] ->
  exists chunk chunks, chunk_text texts max_tokens = inr (chunk :: chunks).
Proof.
  intros Hm Hne. rewrite chunk_text_windows by assumption.
  destruct (chunk_count (encode (join " " texts)) max_tokens) as [|c] eqn:Hc.
  - pose proof (chunk_count_cover (encode (join " " texts)) Hm) as H.
    rewrite Hc in H. destruct (encode (join " " texts)); [congruence|].
    cbn in H. lia.
  - cbn [seq map]. eauto.
Qed.

Lemma chunk_text_no_tokens texts max_tokens :
  (0 < max_tokens)%Z -> encode (join " " texts) = [] ->
  chunk_text texts max_tokens = inr [].
Proof.
  intros Hm He. rewrite chunk_text_windows by assumption.
  rewrite He. reflexivity.
Qed.

(** A text of at most [max_tokens] tokens, and at least one, is one chunk. *)
Lemma chunk_text_single texts max_tokens :
  encode (join " " texts) <> [] ->
  (Z.of_nat (List.length (encode (join " " texts))) <= max_tokens)%Z ->
  chunk_text texts max_tokens = inr [decode (encode (join " " texts))].
Proof.
  intros Hne Hle. set (tokens := encode (join " " texts)) in *.
  assert (Hlen : (0 < List.length tokens)%nat)
    by (destruct tokens; [congruence|cbn; lia]).
  assert (Hm : (0 < max_tokens)%Z) by lia.
  unfold chunk_text. fold tokens. rewrite chunk_tokens_windows by assumption.
  assert (Hc : chunk_count tokens max_tokens = 1%nat).
  { unfold chunk_count, range_len_up.
    destruct (Z.ltb_spec 0 (Z.of_nat (List.length tokens))); [|lia].
    rewrite Z.div_small by lia. reflexivity. }
  rewrite Hc. cbn [seq map]. unfold window_at. cbn [Nat.mul skipn].
  rewrite firstn_all2 by lia. reflexivity.
Qed.

(** Every chunk is the decoding of a window of at most [max_tokens]
    tokens. *)
Lemma chunk_text_bounded texts max_tokens chunks chunk :
  (0 < max_tokens)%Z ->
  chunk_text texts max_tokens = inr chunks -> In chunk chunks ->
  exists window : list Z,
    chunk = decode window /\
    (Z.of_nat (List.length window) <= max_tokens)%Z.
Proof.
  intros Hm Hc Hin. rewrite chunk_text_windows in Hc by assumption.
  injection Hc as <-. apply in_map_iff in Hin as (window & <- & Hin).
  exists window. split; [reflexivity|].
  apply in_map_iff in Hin as (k & <- & _).
  rewrite length_window_at. lia.
Qed.

End ReducerFacts.

(** With special tokens around every text the empty group still has
    tokens, hence one chunk, whose text is empty. *)
Example chunk_text_special_tokens :
  @encode bos_eos_tokenizer (join " " []) = [0; 2]%Z /\
  @chunk_text bos_eos_tokenizer [] 900 = inr [EmptyString].
Proof. split; reflexivity. Qed.

Lemma length_append (s1 s2 : string) :
  String.length (s1 ++ s2) = (String.length s1 + String.length s2)%nat.
Proof. induction s1 as [|c s1 IH]; cbn; [reflexivity|now rewrite IH]. Qed.

Section ReducerFrame.

Context {tok : Tokenizer} {summ : Summarizer}.
Variables max_len min_len : Z.

(** The calls already made are kept, and new ones are appended. *)
Lemma summarize_group_frame reviews log :
  summarize_group reviews max_len min_len log =
  (fst (run (summarize_group reviews max_len min_len)),
   log ++ snd (run (summarize_group reviews max_len min_len))).
Proof.
  destruct (chunk_text_900 reviews) as [chunks Hchunks].
  rewrite (summarize_group_run max_len min_len Hchunks).
  unfold summarize_group. unfold bind at 1. unfold lift at 1.
  rewrite Hchunks. unfold bind at 1. rewrite for_each_summarize.
  rewrite length_map.
  destruct (1 <? List.length chunks)%nat.
  - unfold bind at 1. unfold lift at 1.
    destruct (chunk_text_900
                [join " " (map (summary_of max_len min_len) chunks)])
      as [cc Hcc].
    rewrite Hcc. unfold bind at 1. rewrite for_each_summarize.
    cbn [fst snd ret]. now rewrite app_assoc.
  - reflexivity.
Qed.

(** [IndexError] is the only exception [summarize_group] raises. *)
Lemma summarize_group_raises reviews e :
  fst (run (summarize_group reviews max_len min_len)) = inl e ->
  e = IndexError.
Proof.
  destruct (chunk_text_900 reviews) as [chunks Hchunks].
  rewrite (summarize_group_run max_len min_len Hchunks).
  destruct (1 <? List.length chunks)%nat.
  - destruct (chunk_text_900
                [join " " (map (summary_of max_len min_len) chunks)])
      as [cc ->].
    discriminate.
  - cbn [fst]. destruct chunks; cbn; congruence.
Qed.

End ReducerFrame.

Section ReducerClaims.

Context {tok : Tokenizer} {summ : Summarizer}.
Variables max_len min_len : Z.

(** A group that has tokens gets a summary: the invocations are those of
    pass 1, of which there is at least one, and then those of the merge
    pass, if any. *)
Lemma summarize_group_returns reviews :
  encode (join " " reviews) <> [] ->
  exists chunk chunks merge_chunks summary,
    run (summarize_group reviews max_len min_len) =
    (inr summary,
     map (call_of max_len min_len) (chunk :: chunks)
       ++ map (call_of max_len min_len) merge_chunks).
Proof.
  intros Hne. assert (H900 : (0 < 900)%Z) by lia.
  destruct (chunk_text_nonempty reviews H900 Hne)
    as (chunk & chunks & Hchunks).
  exists chunk, chunks.
  rewrite (summarize_group_run max_len min_len Hchunks).
  destruct chunks as [|chunk' chunks].
  - exists [], (summary_of max_len min_len chunk). reflexivity.
  - cbn [List.length Nat.ltb Nat.leb].
    destruct (chunk_text_900
                [join " " (map (summary_of max_len min_len)
                               (chunk :: chunk' :: chunks))])
      as [merge_chunks ->].
    eauto.
Qed.

(** C2, as the code has it: a group whose joined text has at least one
    token is reduced in one pass or in two, never more. Pass 1 summarizes
    the chunks of the joined reviews; a single summary is returned as it
    is; otherwise one merge pass summarizes the chunks of the joined pass-1
    summaries and the function returns the merge-pass summaries joined by
    spaces, however many they are. *)
Theorem reducer_two_passes reviews :
  encode (join " " reviews) <> [] ->
  exists chunks combined_chunks,
    let summaries := map (summary_of max_len min_len) chunks in
    chunk_text reviews 900 = inr chunks /\
    chunks <> [] /\
    chunk_text [join " " summaries] 900 = inr combined_chunks /\
    run (summarize_group reviews max_len min_len) =
    match summaries with
    | [summary] => (inr summary, map (call_of max_len min_len) chunks)
    | _ =>
        (inr (join " " (map (summary_of max_len min_len) combined_chunks)),
         map (call_of max_len min_len) chunks
           ++ map (call_of max_len min_len) combined_chunks)
    end.
Proof.
  intros Hne. assert (H900 : (0 < 900)%Z) by lia.
  destruct (chunk_text_nonempty reviews H900 Hne)
    as (chunk & chunks & Hchunks).
  destruct (chunk_text_900
              [join " " (map (summary_of max_len min_len) (chunk :: chunks))])
    as [combined_chunks Hcombined].
  exists (chunk :: chunks), combined_chunks. cbv zeta.
  split; [assumption|]. split; [discriminate|]. split; [assumption|].
  rewrite (summarize_group_run max_len min_len Hchunks).
  destruct chunks as [|chunk' chunks]; [reflexivity|].
  cbn [List.length Nat.ltb Nat.leb]. rewrite Hcombined. reflexivity.
Qed.

(** C3, as the code has it: there is no check for an empty group. When the
    tokenizer gives no token for the empty text, no invocation is made and
    [summaries[0]] raises [IndexError]; when it gives some (special tokens),
    the pipeline is invoked and a summary is returned. The exception is not
    caught per group: it ends the [apply] over all groups. *)
Theorem empty_group_unchecked :
  (encode EmptyString = [] ->
   run (summarize_group [] max_len min_len) = (inl IndexError, [])) /\
  (encode EmptyString <> [] ->
   exists summary calls,
     run (summarize_group [] max_len min_len) = (inr summary, calls) /\
     calls <> []) /\
  (encode EmptyString = [] ->
   forall before after : list (list string),
     fst (run (apply_summarize_group (before ++ [] :: after)))
     = inl IndexError).
Proof.
  split; [|split].
  - intros He.
    rewrite (summarize_group_run max_len min_len
               (chunk_text_no_tokens [] (max_tokens := 900) ltac:(lia) He)).
    reflexivity.
  - intros Hne.
    destruct (@summarize_group_returns [] Hne)
      as (chunk & chunks & merge_chunks & summary & ->).
    do 2 eexists. split; [reflexivity|discriminate].
  - intros He before after. unfold run, apply_summarize_group.
    generalize (@nil call).
    induction before as [|g before IH]; intros log; cbn [app for_each].
    + unfold bind at 1. rewrite (summarize_group_frame 80 30).
      rewrite (summarize_group_run 80 30
                 (chunk_text_no_tokens [] (max_tokens := 900) ltac:(lia) He)).
      reflexivity.
    + unfold bind at 1. rewrite (summarize_group_frame 80 30).
      destruct (fst (run (summarize_group g 80 30))) as [e|summary] eqn:Hg.
      * apply summarize_group_raises in Hg. now subst e.
      * unfold bind at 1.
        specialize (IH (log ++ snd (run (summarize_group g 80 30)))).
        destruct (for_each _ _ _) as [[e|ys] log']; cbn [fst] in IH |- *;
          [assumption|discriminate].
Qed.

Lemma dynamic_max_inverted input_len :
  (max_len < min_len)%Z -> dynamic_max max_len min_len input_len = max_len.
Proof. intros H. unfold dynamic_max. lia. Qed.

(** C4, as the code has it: the bounds and the window size are not
    validated. With [max_len < min_len] the budget is
    [(max_length, min_length) = (max_len, min_len)], and for a group with at
    least one token the pipeline is invoked with exactly these bounds and a
    summary is returned. [chunk_text] with [max_tokens = 0] raises
    [ValueError] (from [range]) and with [max_tokens < 0] returns zero
    chunks. *)
Theorem budget_unchecked :
  (forall input_len,
     (max_len < min_len)%Z ->
     length_budget max_len min_len input_len = (max_len, min_len)) /\
  (forall reviews,
     (max_len < min_len)%Z -> encode (join " " reviews) <> [] ->
     exists summary calls,
       run (summarize_group reviews max_len min_len) = (inr summary, calls) /\
       calls <> [] /\
       Forall (fun c => call_max_length c = max_len /\
                        call_min_length c = min_len) calls) /\
  (forall texts, chunk_text texts 0 = inl ValueError) /\
  (forall texts max_tokens,
     (max_tokens < 0)%Z -> chunk_text texts max_tokens = inr []).
Proof.
  split; [|split; [|split]].
  - intros input_len H. unfold length_budget.
    now rewrite dynamic_max_inverted.
  - intros reviews H Hne.
    destruct (@summarize_group_returns reviews Hne)
      as (chunk & chunks & merge_chunks & summary & ->).
    assert (Hcalls : forall l,
      Forall (fun c => call_max_length c = max_len /\
                       call_min_length c = min_len)
             (map (call_of max_len min_len) l)).
    { intros l. apply Forall_map, Forall_forall. intros c _.
      cbn. now rewrite dynamic_max_inverted. }
    do 2 eexists. split; [reflexivity|]. split; [discriminate|].
    apply Forall_app. split; apply Hcalls.
  - intros texts. reflexivity.
  - intros texts max_tokens H. unfold chunk_text, chunk_tokens.
    rewrite range_down by lia. reflexivity.
Qed.

(** When the joined text of the group has at least one token and at most
    900, there is one chunk, the decoded token sequence; one invocation is
    made, on the prompt prefix followed by that chunk, and its answer is
    returned as it is. *)
Lemma single_chunk_run reviews :
  encode (join " " reviews) <> [] ->
  (Z.of_nat (List.length (encode (join " " reviews))) <= 900)%Z ->
  let chunk := decode (encode (join " " reviews)) in
  chunk_text reviews 900 = inr [chunk] /\
  run (summarize_group reviews max_len min_len) =
  (inr (summarizer (intro ++ chunk)
          (dynamic_max max_len min_len
             (Z.of_nat (List.length (encode_plain chunk))))
          min_len),
   [call_of max_len min_len chunk]).
Proof.
  intros Hne Hle chunk.
  pose proof (chunk_text_single reviews Hne Hle) as Hc. fold chunk in Hc.
  split; [assumption|].
  now rewrite (summarize_group_run max_len min_len Hc).
Qed.

(** C8: the tokenizer of the script gives every text at least its special
    tokens; so whenever the joined text of the group has at most 900
    tokens there is exactly one chunk, one pass and one invocation, on the
    prompt prefix followed by that chunk, and the answer of the pipeline is
    returned as it is, with no merge pass and no joining. *)
Theorem single_chunk_path reviews :
  adds_special_tokens tok ->
  (Z.of_nat (List.length (encode (join " " reviews))) <= 900)%Z ->
  let chunk := decode (encode (join " " reviews)) in
  chunk_text reviews 900 = inr [chunk] /\
  run (summarize_group reviews max_len min_len) =
  (inr (summarizer (intro ++ chunk)
          (dynamic_max max_len min_len
             (Z.of_nat (List.length (encode_plain chunk))))
          min_len),
   [call_of max_len min_len chunk]).
Proof.
  intros Hspecial Hle. apply single_chunk_run; [apply Hspecial|exact Hle].
Qed.


(** C10: every invocation made by [summarize_group], in either pass, is
    made on the prompt prefix followed by a decoded window of at most 900
    tokens; the 900-token bound is on that window only, and the text handed
    over is longer than the chunk by the 54 characters of the prefix. *)
Theorem prompt_prefix_on_every_call reviews c :
  In c (snd (run (summarize_group reviews max_len min_len))) ->
  exists window : list Z,
    (Z.of_nat (List.length window) <= 900)%Z /\
    call_text c = (intro ++ decode window)%string /\
    String.length (call_text c) = (54 + String.length (decode window))%nat /\
    (String.length (decode window) < String.length (call_text c))%nat.
Proof.
  intros Hin.
  assert (H900 : (0 < 900)%Z) by lia.
  assert (Hcall : forall texts chunks,
    chunk_text texts 900 = inr chunks ->
    In c (map (call_of max_len min_len) chunks) ->
    exists window : list Z,
      (Z.of_nat (List.length window) <= 900)%Z /\
      call_text c = (intro ++ decode window)%string /\
      String.length (call_text c) = (54 + String.length (decode window))%nat /\
      (String.length (decode window) < String.length (call_text c))%nat).
  { intros texts chunks Hc Hc'.
    apply in_map_iff in Hc' as (chunk & <- & Hchunk).
    destruct (@chunk_text_bounded _ texts 900 chunks chunk H900 Hc Hchunk) as (window & -> & Hlen).
    exists window. cbn [call_of call_text]. rewrite length_append.
    change (String.length intro) with 54%nat.
    split; [assumption|]. split; [reflexivity|]. split; lia. }
  destruct (chunk_text_900 reviews) as [chunks Hchunks].
  rewrite (summarize_group_run max_len min_len Hchunks) in Hin.
  destruct (1 <? List.length chunks)%nat.
  - destruct (chunk_text_900
                [join " " (map (summary_of max_len min_len) chunks)])
      as [cc Hcc].
    rewrite Hcc in Hin. cbn [snd] in Hin.
    apply in_app_or in Hin as [Hin|Hin]; eauto.
  - cbn [snd] in Hin. eauto.
Qed.

End ReducerClaims.

Lemma reducer_two_passes_witness :
  @encode char_tokenizer (join " " ["good wine"%string]) <> [] /\
  exists chunks combined_chunks,
    let summaries :=
      map (@summary_of char_tokenizer lead_summarizer 80 30) chunks in
    @chunk_text char_tokenizer ["good wine"%string] 900 = inr chunks /\
    chunks <> [] /\
    @chunk_text char_tokenizer [join " " summaries] 900 = inr combined_chunks /\
    run (@summarize_group char_tokenizer lead_summarizer
           ["good wine"%string] 80 30) =
    match summaries with
    | [summary] =>
        (inr summary,
         map (@call_of char_tokenizer 80 30) chunks)
    | _ =>
        (inr (join " " (map (@summary_of char_tokenizer lead_summarizer 80 30)
                            combined_chunks)),
         map (@call_of char_tokenizer 80 30) chunks
           ++ map (@call_of char_tokenizer 80 30) combined_chunks)
    end.
Proof.
  split; [discriminate|].
  apply (@reducer_two_passes char_tokenizer lead_summarizer 80 30
           ["good wine"%string]).
  discriminate.
Defined.

(** C2, as stated, fails: with one token per character and a pipeline that
    keeps to [max_length], a review of 10000 characters gives 12 chunks in
    pass 1; the 12 summaries of 80 characters, joined, have 971 tokens, so
    the merge pass has two chunks. The code makes no third pass: it has
    made 14 invocations and returns the two merge-pass summaries joined by
    a space. *)
Lemma merge_pass_not_repeated :
  exists chunks c1 c2,
    @chunk_text char_tokenizer [long_review] 900 = inr chunks /\
    List.length chunks = 12%nat /\
    @chunk_text char_tokenizer
      [join " " (map (@summary_of char_tokenizer lead_summarizer 80 30) chunks)]
      900 = inr [c1; c2] /\
    run (@summarize_group char_tokenizer lead_summarizer [long_review] 80 30) =
    (inr (@summary_of char_tokenizer lead_summarizer 80 30 c1 ++ " "
          ++ @summary_of char_tokenizer lead_summarizer 80 30 c2)%string,
     map (@call_of char_tokenizer 80 30) chunks
       ++ [@call_of char_tokenizer 80 30 c1;
           @call_of char_tokenizer 80 30 c2]).
Proof.
  do 3 eexists. split; [vm_compute; reflexivity|].
  split; [reflexivity|]. split; vm_compute; reflexivity.
Qed.

Lemma empty_group_unchecked_witness :
  run (@summarize_group char_tokenizer lead_summarizer [] 80 30)
  = (inl IndexError, []) /\
  (exists summary calls,
     run (@summarize_group bos_eos_tokenizer lead_summarizer [] 80 30)
     = (inr summary, calls) /\ calls <> []) /\
  fst (run (@apply_summarize_group char_tokenizer lead_summarizer
              ([["a"%string]] ++ [] :: [["b"%string]])))
  = inl IndexError.
Proof.
  destruct (@empty_group_unchecked char_tokenizer lead_summarizer 80 30)
    as (Hnone & _ & Hall).
  destruct (@empty_group_unchecked bos_eos_tokenizer lead_summarizer 80 30)
    as (_ & Hsome & _).
  split; [apply Hnone; reflexivity|].
  split; [apply Hsome; discriminate|].
  apply (Hall eq_refl).
Defined.

(** C3, as stated, fails: with a tokenizer that wraps every text in its
    special tokens, as BART's does, the empty group has one chunk, the empty
    text; the pipeline is invoked on the prompt prefix alone and its answer
    is returned. No exception is raised and one invocation is made. *)
Lemma empty_group_summarized :
  run (@summarize_group bos_eos_tokenizer lead_summarizer [] 80 30) =
  (inr "Summarize the following reviews for"%string,
   [{| call_text := intro; call_max_length := 35; call_min_length := 30 |}]).
Proof. vm_compute. reflexivity. Qed.

Lemma budget_unchecked_witness :
  length_budget 80 100 9 = (80, 100)%Z /\
  (exists summary calls,
     run (@summarize_group char_tokenizer lead_summarizer
            ["good wine"%string] 80 100) = (inr summary, calls) /\
     calls <> [] /\
     Forall (fun c => call_max_length c = 80%Z /\ call_min_length c = 100%Z)
            calls) /\
  @chunk_text char_tokenizer ["good wine"%string] 0 = inl ValueError /\
  @chunk_text char_tokenizer ["good wine"%string] (-1) = inr [].
Proof.
  destruct (@budget_unchecked char_tokenizer lead_summarizer 80 100)
    as (Hbudget & Hrun & Hzero & Hneg).
  split; [apply Hbudget; lia|].
  split; [apply Hrun; [lia|discriminate]|].
  split; [apply Hzero|apply Hneg; lia].
Defined.

(** C4, as stated, fails: with [min_len = 100 > max_len = 80] no error is
    raised; the pipeline is invoked with [max_length = 80] and
    [min_length = 100] and its answer is returned. *)
Lemma inverted_bounds_accepted :
  run (@summarize_group char_tokenizer lead_summarizer
         ["good wine"%string] 80 100) =
  (inr (intro ++ "good wine")%string,
   [{| call_text := (intro ++ "good wine")%string;
       call_max_length := 80;
       call_min_length := 100 |}]).
Proof. vm_compute. reflexivity. Qed.

Lemma bos_eos_adds_special_tokens : adds_special_tokens bos_eos_tokenizer.
Proof. intros text. cbn. discriminate. Qed.

Lemma single_chunk_path_witness :
  adds_special_tokens bos_eos_tokenizer /\
  (Z.of_nat (List.length (@encode bos_eos_tokenizer
                            (join " " [EmptyString]))) <= 900)%Z /\
  @chunk_text bos_eos_tokenizer [EmptyString] 900 = inr [EmptyString] /\
  run (@summarize_group bos_eos_tokenizer lead_summarizer
         [EmptyString] 80 30) =
  (inr (@summarizer lead_summarizer intro 35 30),
   [@call_of bos_eos_tokenizer 80 30 EmptyString]).
Proof.
  split; [exact bos_eos_adds_special_tokens|].
  split; [vm_compute; discriminate|].
  apply (@single_chunk_path bos_eos_tokenizer lead_summarizer 80 30
           [EmptyString] bos_eos_adds_special_tokens).
  vm_compute. discriminate.
Defined.



Lemma prompt_prefix_on_every_call_witness :
  In (@call_of char_tokenizer 80 30 "good wine")
     (snd (run (@summarize_group char_tokenizer lead_summarizer
                  ["good wine"%string] 80 30))) /\
  exists window : list Z,
    (Z.of_nat (List.length window) <= 900)%Z /\
    call_text (@call_of char_tokenizer 80 30 "good wine")
    = (intro ++ @decode char_tokenizer window)%string /\
    String.length (call_text (@call_of char_tokenizer 80 30 "good wine"))
    = (54 + String.length (@decode char_tokenizer window))%nat /\
    (String.length (@decode char_tokenizer window)
     < String.length (call_text (@call_of char_tokenizer 80 30 "good wine")))%nat.
Proof.
  split; [left; reflexivity|].
  apply (@prompt_prefix_on_every_call char_tokenizer lead_summarizer 80 30
           ["good wine"%string]).
  left. reflexivity.
Defined.

(** ** Validator *)

Section InRange.

Variable A : Type.
Implicit Types (l : list A).

Lemma index_in_range l (k : nat) x :
  nth_error l k = Some x -> index l (Z.of_nat k) = inr x.
Proof.
  intros H. unfold index.
  destruct (Z.ltb_spec (Z.of_nat k) 0); [lia|].
  destruct (Z.ltb_spec (Z.of_nat k) 0); [lia|].
  now rewrite Nat2Z.id, H.
Qed.

Lemma slice_in_range l (a n : nat) :
  (a + n <= List.length l)%nat ->
  slice l (Z.of_nat a) (Z.of_nat a + Z.of_nat n) = firstn n (skipn a l).
Proof.
  intros H. unfold slice, clamp_index.
  destruct (Z.ltb_spec (Z.of_nat a) 0); [lia|].
  destruct (Z.ltb_spec (Z.of_nat a + Z.of_nat n) 0); [lia|].
  rewrite !Z.min_l by lia. rewrite Nat2Z.id. f_equal. lia.
Qed.

End InRange.

Lemma range_ten (n : nat) :
  range 0 (Z.of_nat (10 * n)) 10 =
  inr (map (fun k => (Z.of_nat k * 10)%Z) (seq 0 n)).
Proof.
  rewrite range_up by lia. do 3 f_equal. unfold range_len_up.
  destruct (Z.ltb_spec 0 (Z.of_nat (10 * n))) as [Hpos|Hzero]; [|lia].
  replace (Z.of_nat (10 * n) - 0 - 1)%Z
    with ((Z.of_nat n - 1) * 10 + 9)%Z by lia.
  rewrite Z.div_add_l by lia. rewrite (Z.div_small 9 10) by lia. lia.
Qed.

(** A record passes the key checks. *)
Lemma check_keys_record record r :
  is_record record ->
  List.length record = 9%nat /\ check_keys r 0 expected_keys record = None.
Proof.
  unfold is_record, expected_keys. intros H.
  repeat match goal with
         | H : Forall2 _ _ _ |- _ => inversion H; clear H; subst
         end.
  repeat match goal with
         | H : key_value_line _ _ |- _ => destruct H as [? ->]
         end.
  split; reflexivity.
Qed.

(** A line that misses its key is reported. *)
Lemma check_keys_mismatch keys : forall record_lines r j0 j key line,
  nth_error keys j = Some key ->
  nth_error record_lines j = Some line ->
  startswith line (key ++ ":") = false ->
  exists msg, check_keys r j0 keys record_lines = Some msg.
Proof.
  induction keys as [|k keys IH]; intros record_lines r j0 j key line Hk Hl Hs.
  - destruct j; discriminate.
  - destruct record_lines as [|l record_lines]; [destruct j; discriminate|].
    cbn [check_keys]. destruct j as [|j]; cbn in Hk, Hl.
    + injection Hk as ->. injection Hl as ->. rewrite Hs. cbn. eauto.
    + destruct (negb (startswith l (k ++ ":"))); [eauto|].
      eapply IH; eassumption.
Qed.

(** The loop over the records fails as soon as one iteration does. *)
Lemma check_records_fail lines starts : forall i msg,
  In i starts ->
  check_record lines i = inr (Some msg) ->
  (forall i', In i' starts -> exists r, check_record lines i' = inr r) ->
  exists msg', check_records lines starts = inr (false, msg').
Proof.
  induction starts as [|i0 starts IH]; intros i msg Hin Hi Hall; [easy|].
  cbn [check_records].
  destruct (Hall i0 (or_introl eq_refl)) as [[m|] Hr]; rewrite Hr; [eauto|].
  destruct Hin as [->|Hin]; [congruence|].
  eapply IH; eauto. intros i' Hi'. apply Hall. now right.
Qed.

Lemma check_records_pass lines starts :
  (forall i, In i starts -> check_record lines i = inr None) ->
  check_records lines starts = inr (true, msg_ok).
Proof.
  induction starts as [|i starts IH]; intros Hall; [reflexivity|].
  cbn [check_records]. rewrite (Hall i (or_introl eq_refl)).
  apply IH. intros i' Hi'. apply Hall. now right.
Qed.

(** One iteration on a file of [n] blocks of ten lines, for the block
    numbered [r] (from 0). *)
Lemma check_record_block lines (n r : nat) :
  List.length lines = (10 * n)%nat -> (r < n)%nat ->
  exists blank_line,
    nth_error lines (10 * r + 9) = Some blank_line /\
    check_record lines (Z.of_nat r * 10) =
    if (S r <? n)%nat && negb (String.eqb blank_line "")
    then inr (Some (msg_missing_blank (Z.of_nat r + 1)))
    else inr (check_keys (Z.of_nat r + 1) 0 expected_keys
                         (firstn 9 (skipn (10 * r) lines))).
Proof.
  intros Hlen Hr.
  destruct (nth_error lines (10 * r + 9)) as [blank_line|] eqn:Hb.
  2: { apply nth_error_None in Hb. lia. }
  exists blank_line. split; [reflexivity|]. unfold check_record.
  replace (Z.of_nat r * 10 + 9)%Z with (Z.of_nat (10 * r + 9)) by lia.
  rewrite (index_in_range _ _ Hb).
  replace (Z.of_nat (10 * r + 9))
    with (Z.of_nat (10 * r) + Z.of_nat 9)%Z by lia.
  replace (Z.of_nat r * 10)%Z with (Z.of_nat (10 * r)) by lia.
  rewrite slice_in_range by lia.
  replace (Z.of_nat (10 * r) / 10 + 1)%Z with (Z.of_nat r + 1)%Z by lia_mod.
  replace (Z.of_nat (10 * r) + 10 <? Z.of_nat (List.length lines))%Z
    with (S r <? n)%nat; [reflexivity|].
  rewrite Hlen. destruct (Nat.ltb_spec (S r) n), (Z.ltb_spec (Z.of_nat (10 * r) + 10) (Z.of_nat (10 * n))); lia.
Qed.

Lemma length_render records :
  Forall is_record records ->
  List.length (render records) = (10 * List.length records)%nat.
Proof.
  induction 1 as [|record records Hrec _ IH]; [reflexivity|].
  unfold render in *. cbn [map List.concat List.length].
  rewrite !length_app, IH.
  destruct (check_keys_record 0 Hrec) as [-> _]. cbn [List.length]. lia.
Qed.

(** The block numbered [r] of a rendered file is the record numbered [r]
    and a blank line. *)
Lemma render_block records : forall r record,
  Forall is_record records ->
  nth_error records r = Some record ->
  exists rest, skipn (10 * r) (render records) = record ++ EmptyString :: rest.
Proof.
  induction records as [|record0 records IH]; intros r record Hall Hr.
  - destruct r; discriminate.
  - inversion Hall as [|? ? Hrec Hrest]; subst.
    destruct r as [|r]; cbn in Hr.
    + injection Hr as ->. exists (render records).
      unfold render. cbn [map List.concat Nat.mul skipn].
      now rewrite <- app_assoc.
    + destruct (IH r record Hrest Hr) as [rest Hskip]. exists rest.
      rewrite <- Hskip. unfold render. cbn [map List.concat].
      destruct (check_keys_record 0 Hrec) as [Hlen _].
      rewrite skipn_app, skipn_all2 by (rewrite length_app; cbn; lia).
      rewrite length_app, Hlen. cbn [List.length app].
      f_equal. lia.
Qed.

Lemma padded_aligned lines :
  (Z.of_nat (List.length lines) mod 10 = 0)%Z -> padded lines = lines.
Proof.
  intros H. unfold padded.
  destruct (Z.eqb_spec ((Z.of_nat (List.length lines) + 1) mod 10) 0);
    [lia_mod|reflexivity].
Qed.

Lemma padded_short lines :
  (Z.of_nat (List.length lines) mod 10 = 9)%Z ->
  padded lines = lines ++ [EmptyString].
Proof.
  intros H. unfold padded.
  destruct (Z.eqb_spec ((Z.of_nat (List.length lines) + 1) mod 10) 0);
    [reflexivity|lia_mod].
Qed.

(** A file of [n] full blocks: the checks run over the blocks 0 .. n-1. *)
Lemma validate_blocks lines (n : nat) :
  List.length (padded lines) = (10 * n)%nat ->
  validate_wine_reviews lines =
  check_records (padded lines) (map (fun k => (Z.of_nat k * 10)%Z) (seq 0 n)).
Proof.
  intros Hlen. unfold validate_wine_reviews. rewrite Hlen.
  destruct (Z.eqb_spec (Z.of_nat (10 * n) mod 10) 0) as [_|Hne];
    [|exfalso; apply Hne; lia_mod].
  cbn [negb]. now rewrite range_ten.
Qed.

Lemma validate_rendered records :
  Forall is_record records ->
  validate_wine_reviews (render records) = inr (true, msg_ok) /\
  (records <> [] ->
   validate_wine_reviews (removelast (render records)) = inr (true, msg_ok)).
Proof.
  intros Hall. pose proof (length_render Hall) as Hlen.
  assert (Hchecks :
    check_records (render records)
      (map (fun k => (Z.of_nat k * 10)%Z) (seq 0 (List.length records)))
    = inr (true, msg_ok)).
  { apply check_records_pass. intros i Hi.
    apply in_map_iff in Hi as (r & <- & Hr). apply in_seq in Hr.
    destruct (check_record_block (render records) Hlen (r := r) ltac:(lia))
      as (blank_line & Hblank & ->).
    destruct (nth_error records r) as [record|] eqn:Hrec;
      [|apply nth_error_None in Hrec; lia].
    destruct (render_block r Hall Hrec) as [rest Hskip].
    destruct (check_keys_record (Z.of_nat r + 1)
                (proj1 (Forall_forall _ _) Hall record
                       (nth_error_In _ _ Hrec))) as [Hnine Hkeys].
    rewrite <- (Nat.add_0_r (10 * r + 9)), <- Nat.add_assoc in Hblank.
    rewrite <- nth_error_skipn, Hskip in Hblank.
    rewrite nth_error_app2 in Hblank by lia.
    rewrite Hnine in Hblank. cbn in Hblank. injection Hblank as <-.
    rewrite Bool.andb_false_r, Hskip.
    rewrite firstn_app, firstn_all2 by lia.
    rewrite Hnine. cbn [Nat.sub firstn]. rewrite app_nil_r. now rewrite Hkeys. }
  assert (Hpad : padded (render records) = render records)
    by (apply padded_aligned; rewrite Hlen; lia_mod).
  split.
  - rewrite (@validate_blocks (render records) (List.length records))
      by (now rewrite Hpad).
    now rewrite Hpad.
  - intros Hne. destruct (exists_last Hne) as (records' & record & ->).
    assert (Hlast : render (records' ++ [record])
                    = (render records' ++ record) ++ [EmptyString]).
    { unfold render. rewrite map_app, concat_app. cbn [map List.concat].
      now rewrite app_nil_r, !app_assoc. }
    assert (Hpad' : padded (removelast (render (records' ++ [record])))
                    = render (records' ++ [record])).
    { rewrite Hlast, removelast_last. rewrite padded_short; [reflexivity|].
      rewrite Hlast, length_app in Hlen. cbn [List.length] in Hlen.
      lia_mod. }
    rewrite (@validate_blocks _ (List.length (records' ++ [record])))
      by (now rewrite Hpad').
    now rewrite Hpad'.
Qed.

Lemma validate_misaligned lines :
  (List.length lines mod 10 <> 0)%nat -> (List.length lines mod 10 <> 9)%nat ->
  validate_wine_reviews lines =
  inr (false, msg_not_aligned (Z.of_nat (List.length lines))).
Proof.
  intros H0 H9. unfold validate_wine_reviews, padded.
  destruct (Z.eqb_spec ((Z.of_nat (List.length lines) + 1) mod 10) 0);
    [lia_mod|].
  destruct (Z.eqb_spec (Z.of_nat (List.length lines) mod 10) 0);
    [lia_mod|reflexivity].
Qed.

(** Either the line count is rejected, or the checks run on full blocks
    that hold the lines of the file at their positions. *)
Lemma validate_cases lines :
  (exists msg, validate_wine_reviews lines = inr (false, msg)) \/
  (exists n,
     List.length (padded lines) = (10 * n)%nat /\
     (List.length lines <= 10 * n)%nat /\
     forall k x, nth_error lines k = Some x ->
                 nth_error (padded lines) k = Some x).
Proof.
  destruct (Nat.eq_dec (List.length lines mod 10) 0) as [H0|H0].
  - right. exists (List.length lines / 10)%nat.
    rewrite padded_aligned by lia_mod.
    repeat split; [lia_mod|lia_mod|auto].
  - destruct (Nat.eq_dec (List.length lines mod 10) 9) as [H9|H9].
    + right. exists (S (List.length lines / 10)).
      rewrite padded_short by lia_mod. rewrite length_app. cbn [List.length].
      repeat split; [lia_mod|lia_mod|].
      intros k x Hk. rewrite nth_error_app1; [assumption|].
      apply nth_error_Some. congruence.
    + left. eexists. apply validate_misaligned; assumption.
Qed.

Lemma block_fail lines (n r : nat) msg :
  List.length lines = (10 * n)%nat -> (r < n)%nat ->
  check_record lines (Z.of_nat r * 10) = inr (Some msg) ->
  exists msg',
    check_records lines (map (fun k => (Z.of_nat k * 10)%Z) (seq 0 n))
    = inr (false, msg').
Proof.
  intros Hlen Hr Hrec.
  apply (@check_records_fail lines _ (Z.of_nat r * 10)%Z msg).
  - apply in_map_iff. exists r. split; [reflexivity|apply in_seq; lia].
  - assumption.
  - intros i' Hi'. apply in_map_iff in Hi' as (r' & <- & Hr').
    apply in_seq in Hr'.
    destruct (check_record_block lines Hlen (r := r') ltac:(lia))
      as (blank_line & _ & ->).
    destruct (_ && _); eauto.
Qed.

Lemma validate_key_mismatch lines (r j : nat) key line :
  nth_error expected_keys j = Some key ->
  nth_error lines (10 * r + j) = Some line ->
  startswith line (key ++ ":") = false ->
  exists msg, validate_wine_reviews lines = inr (false, msg).
Proof.
  intros Hkey Hline Hstart.
  destruct (validate_cases lines) as [?|(n & Hlen & Hle & Hsame)];
    [assumption|].
  assert (Hj : (j < 9)%nat)
    by (apply (nth_error_Some expected_keys j); congruence).
  assert (Hr : (r < n)%nat).
  { assert (10 * r + j < List.length lines)%nat
      by (apply nth_error_Some; congruence). lia. }
  rewrite (@validate_blocks lines n Hlen).
  destruct (check_record_block (padded lines) Hlen Hr)
    as (blank_line & _ & Hrec).
  destruct ((S r <? n)%nat && negb (String.eqb blank_line "")).
  - eapply block_fail; eassumption.
  - destruct (@check_keys_mismatch expected_keys
                (firstn 9 (skipn (10 * r) (padded lines)))
                (Z.of_nat r + 1)%Z 0%Z j key line Hkey) as [msg Hmsg].
    + rewrite nth_error_firstn.
      destruct (Nat.ltb_spec j 9); [|lia].
      rewrite nth_error_skipn. now apply Hsame.
    + assumption.
    + rewrite Hmsg in Hrec. eapply block_fail; eassumption.
Qed.

Lemma validate_missing_blank lines (r : nat) line :
  nth_error lines (10 * r + 9) = Some line ->
  line <> EmptyString ->
  (10 * r + 10 < List.length lines)%nat ->
  exists msg, validate_wine_reviews lines = inr (false, msg).
Proof.
  intros Hline Hne Hmore.
  destruct (validate_cases lines) as [?|(n & Hlen & Hle & Hsame)];
    [assumption|].
  assert (Hr : (S r < n)%nat) by lia.
  rewrite (@validate_blocks lines n Hlen).
  destruct (check_record_block (padded lines) Hlen (r := r) ltac:(lia))
    as (blank_line & Hblank & Hrec).
  rewrite (Hsame _ _ Hline) in Hblank. injection Hblank as <-.
  destruct (Nat.ltb_spec (S r) n); [|lia].
  destruct (String.eqb_spec line ""); [contradiction|].
  cbn in Hrec. eapply block_fail; [eassumption| |eassumption]. lia.
Qed.

(** C9: a file of records of 9 [key: value] lines with the keys in the
    fixed order, each followed by a blank line, is accepted, also without
    the blank line after the last record. A file is rejected when its line
    count is neither a multiple of 10 nor one less, when a line of a record
    does not start with the key of its position and a colon, and when a
    record that is not the last is followed by a line that is not blank. *)
Theorem validate_wine_reviews_format :
  (forall records,
     Forall is_record records ->
     validate_wine_reviews (render records) = inr (true, msg_ok) /\
     (records <> [] ->
      validate_wine_reviews (removelast (render records))
      = inr (true, msg_ok))) /\
  (forall lines,
     (List.length lines mod 10 <> 0)%nat ->
     (List.length lines mod 10 <> 9)%nat ->
     validate_wine_reviews lines =
     inr (false, msg_not_aligned (Z.of_nat (List.length lines)))) /\
  (forall lines (r j : nat) key line,
     nth_error expected_keys j = Some key ->
     nth_error lines (10 * r + j) = Some line ->
     startswith line (key ++ ":") = false ->
     exists msg, validate_wine_reviews lines = inr (false, msg)) /\
  (forall lines (r : nat) line,
     nth_error lines (10 * r + 9) = Some line ->
     line <> EmptyString ->
     (10 * r + 10 < List.length lines)%nat ->
     exists msg, validate_wine_reviews lines = inr (false, msg)).
Proof.
  split; [exact validate_rendered|].
  split; [exact validate_misaligned|].
  split; [exact validate_key_mismatch|exact validate_missing_blank].
Qed.

Lemma sample_is_record : is_record sample_record.
Proof.
  unfold is_record, expected_keys, sample_record.
  repeat constructor; eexists; reflexivity.
Qed.

Lemma validate_wine_reviews_format_witness :
  validate_wine_reviews (render [sample_record; sample_record])
  = inr (true, msg_ok) /\
  validate_wine_reviews (removelast (render [sample_record; sample_record]))
  = inr (true, msg_ok) /\
  validate_wine_reviews ["wine/name: a"; "wine/wineId: 1"]%string
  = inr (false, msg_not_aligned 2) /\
  (exists msg,
     validate_wine_reviews
       (render [sample_record; "review/text: late"%string :: tl sample_record])
     = inr (false, msg)) /\
  (exists msg,
     validate_wine_reviews
       (sample_record ++ "not blank"%string :: render [sample_record])
     = inr (false, msg)).
Proof.
  destruct validate_wine_reviews_format
    as (Hformat & Hcount & Hkey & Hblank).
  assert (Hrecords : Forall is_record [sample_record; sample_record])
    by (constructor;
        [apply sample_is_record
        |constructor; [apply sample_is_record|constructor]]).
  destruct (Hformat _ Hrecords) as [Hfull Hshort].
  split; [exact Hfull|]. split; [apply Hshort; discriminate|].
  split; [apply Hcount; cbn; lia|]. split.
  - apply (Hkey _ 1%nat 0%nat "wine/name"%string "review/text: late"%string);
      reflexivity.
  - apply (Hblank _ 0%nat "not blank"%string);
      [reflexivity|discriminate|cbn; lia].
Defined.

(** * Further properties *)

(** ** More on the length budget *)

(** X1: whatever the chunk length, the upper bound handed to the pipeline
    is at most [max_len] and at least the smaller of [max_len] and
    [min_len + 5]. *)
Theorem dynamic_max_bounds (max_len min_len input_len : Z) :
  (Z.min max_len (min_len + 5) <= dynamic_max max_len min_len input_len
   <= max_len)%Z.
Proof. unfold dynamic_max. lia. Qed.

(** X2: a longer chunk never gets a smaller upper bound. *)
Theorem dynamic_max_monotone (max_len min_len a b : Z) :
  (0 <= a <= b)%Z ->
  (dynamic_max max_len min_len a <= dynamic_max max_len min_len b)%Z.
Proof.
  intros H. unfold dynamic_max.
  rewrite !int_of_four_fifths by lia.
  assert (4 * a / 5 <= 4 * b / 5)%Z by (apply Z.div_le_mono; lia).
  lia.
Qed.

Lemma dynamic_max_monotone_witness :
  (0 <= 40 <= 60)%Z /\ (dynamic_max 80 30 40 <= dynamic_max 80 30 60)%Z.
Proof.
  split; [lia|]. apply (@dynamic_max_monotone 80 30 40 60). lia.
Defined.

(** X3: the two flat ends of the budget. A chunk of at least
    [5 * max_len / 4] tokens gets [max_len] itself; a chunk so short that
    four fifths of it do not reach [min_len + 6] gets the floor, the smaller
    of [max_len] and [min_len + 5]. *)
Theorem dynamic_max_regimes (max_len min_len input_len : Z) :
  (0 <= input_len)%Z ->
  ((5 * max_len <= 4 * input_len)%Z ->
   dynamic_max max_len min_len input_len = max_len) /\
  ((4 * input_len < 5 * (min_len + 6))%Z ->
   dynamic_max max_len min_len input_len = Z.min max_len (min_len + 5)).
Proof.
  intros Hn. unfold dynamic_max. rewrite int_of_four_fifths by lia.
  split; intros H.
  - assert (max_len <= 4 * input_len / 5)%Z
      by (apply Z.div_le_lower_bound; lia).
    lia.
  - assert (4 * input_len / 5 < min_len + 6)%Z
      by (apply Z.div_lt_upper_bound; lia).
    lia.
Qed.

Lemma dynamic_max_regimes_witness :
  (0 <= 900)%Z /\
  ((5 * 80 <= 4 * 900)%Z -> dynamic_max 80 30 900 = 80%Z) /\
  ((4 * 900 < 5 * (800 + 6))%Z ->
   dynamic_max 1000 800 900 = Z.min 1000 (800 + 5)).
Proof.
  split; [lia|].
  split; intros H.
  - apply (@dynamic_max_regimes 80 30 900); lia.
  - apply (@dynamic_max_regimes 1000 800 900); lia.
Defined.

(** ** More on the chunker *)

(** X4: for [max_tokens > 0] the number of chunks is the token count
    divided by [max_tokens], rounded up, and the last chunk holds the
    tokens that the full chunks before it leave over. *)
Theorem chunk_tokens_count (tokens : list Z) (max_tokens : Z) :
  (0 < max_tokens)%Z ->
  exists chunks,
    chunk_tokens tokens max_tokens = inr chunks /\
    Z.of_nat (List.length chunks)
    = ((Z.of_nat (List.length tokens) + max_tokens - 1) / max_tokens)%Z /\
    (forall last,
       nth_error chunks (List.length chunks - 1) = Some last ->
       Z.of_nat (List.length last)
       = (Z.of_nat (List.length tokens)
          - (Z.of_nat (List.length chunks) - 1) * max_tokens)%Z).
Proof.
  intros Hm. eexists. split; [apply chunk_tokens_windows; assumption|].
  rewrite length_map, length_seq.
  assert (Hcount :
    Z.of_nat (chunk_count tokens max_tokens)
    = ((Z.of_nat (List.length tokens) + max_tokens - 1) / max_tokens)%Z).
  { unfold chunk_count, range_len_up.
    destruct (Z.ltb_spec 0 (Z.of_nat (List.length tokens))) as [Hpos|Hzero].
    - rewrite Z2Nat.id
        by (pose proof (Z.div_pos (Z.of_nat (List.length tokens) - 0 - 1)
                          max_tokens ltac:(lia) Hm); lia).
      replace (Z.of_nat (List.length tokens) + max_tokens - 1)%Z
        with (Z.of_nat (List.length tokens) - 0 - 1 + 1 * max_tokens)%Z
        by lia.
      now rewrite Z.div_add by lia.
    - replace (Z.of_nat (List.length tokens)) with 0%Z by lia.
      rewrite Z.div_small by lia. reflexivity. }
  split; [exact Hcount|].
  intros last Hlast. apply nth_error_windows in Hlast as [Hlt ->].
  rewrite length_window_at.
  pose proof (chunk_count_cover tokens Hm) as Hcover.
  pose proof (chunk_count_tight tokens Hm Hlt) as Htight.
  nia.
Qed.

Lemma chunk_tokens_count_witness :
  (0 < 2)%Z /\
  exists chunks,
    chunk_tokens [11; 12; 13; 14; 15]%Z 2 = inr chunks /\
    Z.of_nat (List.length chunks) = ((5 + 2 - 1) / 2)%Z /\
    (forall last,
       nth_error chunks (List.length chunks - 1) = Some last ->
       Z.of_nat (List.length last)
       = (5 - (Z.of_nat (List.length chunks) - 1) * 2)%Z).
Proof.
  split; [lia|]. apply (@chunk_tokens_count [11; 12; 13; 14; 15]%Z 2). lia.
Defined.

(** ** More on the reducer *)

Section ReducerExtras.

Context {tok : Tokenizer} {summ : Summarizer}.
Variables max_len min_len : Z.

(** The invocations of a run are made for chunks, one each. *)
Lemma summarize_group_calls reviews :
  exists chunks,
    snd (run (summarize_group reviews max_len min_len))
    = map (call_of max_len min_len) chunks.
Proof.
  destruct (chunk_text_900 reviews) as [chunks Hchunks].
  rewrite (summarize_group_run max_len min_len Hchunks).
  destruct (1 <? List.length chunks)%nat.
  - destruct (chunk_text_900
                [join " " (map (summary_of max_len min_len) chunks)])
      as [merge_chunks ->].
    exists (chunks ++ merge_chunks). cbn [snd]. now rewrite map_app.
  - exists chunks. reflexivity.
Qed.

(** X6: every invocation made for a group carries [min_length = min_len]
    and a [max_length] that is at most [max_len]; when
    [min_len + 5 <= max_len] the two are at least 5 apart, so the bounds
    handed to the pipeline are never inverted. *)
Theorem calls_within_bounds reviews c :
  In c (snd (run (summarize_group reviews max_len min_len))) ->
  call_min_length c = min_len /\
  (call_max_length c <= max_len)%Z /\
  ((min_len + 5 <= max_len)%Z ->
   (call_min_length c + 5 <= call_max_length c)%Z).
Proof.
  intros Hin. destruct (summarize_group_calls reviews) as [chunks Hcalls].
  rewrite Hcalls in Hin. apply in_map_iff in Hin as (chunk & <- & _).
  cbn [call_of call_min_length call_max_length].
  unfold dynamic_max. repeat split; lia.
Qed.

End ReducerExtras.

Lemma calls_within_bounds_witness :
  In (@call_of char_tokenizer 80 30 "good wine")
     (snd (run (@summarize_group char_tokenizer lead_summarizer
                  ["good wine"%string] 80 30))) /\
  call_min_length (@call_of char_tokenizer 80 30 "good wine") = 30%Z /\
  (call_max_length (@call_of char_tokenizer 80 30 "good wine") <= 80)%Z /\
  (call_min_length (@call_of char_tokenizer 80 30 "good wine") + 5
   <= call_max_length (@call_of char_tokenizer 80 30 "good wine"))%Z.
Proof.
  assert (Hin : In (@call_of char_tokenizer 80 30 "good wine")
                   (snd (run (@summarize_group char_tokenizer lead_summarizer
                                ["good wine"%string] 80 30))))
    by (left; reflexivity).
  split; [exact Hin|].
  destruct (@calls_within_bounds char_tokenizer lead_summarizer 80 30
              ["good wine"%string] _ Hin) as (Hmin & Hmax & Hgap).
  split; [exact Hmin|]. split; [exact Hmax|]. apply Hgap. lia.
Defined.

(** ** More on the validator *)

Lemma check_keys_first_mismatch keys : forall record_lines rec j0 j key line,
  (forall j' key',
     (j' < j)%nat -> nth_error keys j' = Some key' ->
     exists line',
       nth_error record_lines j' = Some line' /\
       startswith line' (key' ++ ":") = true) ->
  nth_error keys j = Some key ->
  nth_error record_lines j = Some line ->
  startswith line (key ++ ":") = false ->
  check_keys rec j0 keys record_lines
  = Some (msg_key rec (j0 + Z.of_nat j + 1) key line).
Proof.
  induction keys as [|k keys IH];
    intros record_lines rec j0 j key line Hbefore Hkey Hline Hstart.
  - destruct j; discriminate.
  - destruct record_lines as [|l record_lines]; [destruct j; discriminate|].
    cbn [check_keys]. destruct j as [|j]; cbn in Hkey, Hline.
    + injection Hkey as ->. injection Hline as ->. rewrite Hstart.
      cbn [negb]. do 2 f_equal. lia.
    + destruct (Hbefore 0%nat k ltac:(lia) eq_refl) as (l' & Hl' & Hok).
      cbn in Hl'. injection Hl' as <-. rewrite Hok. cbn [negb].
      rewrite (IH record_lines rec (j0 + 1)%Z j key line); try assumption.
      * do 2 f_equal. lia.
      * intros j' key' Hj' Hk'.
        apply (Hbefore (S j') key' ltac:(lia) Hk').
Qed.

Lemma check_keys_all_ok keys : forall record_lines rec j0,
  (forall j key,
     nth_error keys j = Some key ->
     exists line,
       nth_error record_lines j = Some line /\
       startswith line (key ++ ":") = true) ->
  check_keys rec j0 keys record_lines = None.
Proof.
  induction keys as [|k keys IH]; intros record_lines rec j0 Hall;
    [reflexivity|].
  destruct (Hall 0%nat k eq_refl) as (l & Hl & Hok).
  destruct record_lines as [|l' record_lines]; [discriminate|].
  cbn in Hl. injection Hl as ->. cbn [check_keys]. rewrite Hok. cbn [negb].
  apply IH. intros j key Hkey. apply (Hall (S j) key Hkey).
Qed.

Lemma check_keys_none keys : forall record_lines rec j0,
  check_keys rec j0 keys record_lines = None ->
  (List.length keys <= List.length record_lines)%nat ->
  forall j key,
    nth_error keys j = Some key ->
    exists line,
      nth_error record_lines j = Some line /\
      startswith line (key ++ ":") = true.
Proof.
  induction keys as [|k keys IH]; intros record_lines rec j0 Hnone Hlen j key Hkey.
  - destruct j; discriminate.
  - destruct record_lines as [|l record_lines]; [cbn in Hlen; lia|].
    cbn [check_keys] in Hnone.
    destruct (startswith l (k ++ ":")) eqn:Hok; [|discriminate].
    cbn [negb] in Hnone. destruct j as [|j]; cbn in Hkey |- *.
    + injection Hkey as <-. eauto.
    + eapply IH; eauto. cbn in Hlen. lia.
Qed.

Lemma check_records_app lines starts1 : forall starts2,
  (forall i, In i starts1 -> check_record lines i = inr None) ->
  check_records lines (starts1 ++ starts2) = check_records lines starts2.
Proof.
  induction starts1 as [|i starts1 IH]; intros starts2 Hall; [reflexivity|].
  cbn [app check_records]. rewrite (Hall i (or_introl eq_refl)).
  apply IH. intros i' Hi'. apply Hall. now right.
Qed.

Lemma check_records_true lines starts : forall msg,
  check_records lines starts = inr (true, msg) ->
  msg = msg_ok /\ forall i, In i starts -> check_record lines i = inr None.
Proof.
  induction starts as [|i starts IH]; intros msg H.
  - cbn in H. injection H as <-. split; [reflexivity|easy].
  - cbn [check_records] in H.
    destruct (check_record lines i) as [e|[m|]] eqn:Hi; try discriminate.
    destruct (IH msg H) as [-> Hall]. split; [reflexivity|].
    intros i' [<-|Hi']; auto.
Qed.

(** The lines the checks run on: the file, with at most one blank line
    added, in [n] blocks of ten. *)
Lemma padded_shape lines :
  aligned lines ->
  exists n pad,
    padded lines = lines ++ pad /\
    (List.length pad <= 1)%nat /\
    (List.length lines + List.length pad = 10 * n)%nat.
Proof.
  intros [H0|H9].
  - exists (List.length lines / 10)%nat, [].
    rewrite padded_aligned by lia_mod. rewrite app_nil_r.
    cbn [List.length]. repeat split; lia_mod.
  - exists (S (List.length lines / 10)), [EmptyString].
    rewrite padded_short by lia_mod. cbn [List.length].
    repeat split; lia_mod.
Qed.

Lemma misaligned_rejected lines msg :
  validate_wine_reviews lines = inr (true, msg) -> aligned lines.
Proof.
  intros H. unfold aligned.
  destruct (Nat.eq_dec (List.length lines mod 10) 0) as [|H0]; [now left|].
  destruct (Nat.eq_dec (List.length lines mod 10) 9) as [|H9]; [now right|].
  rewrite (validate_misaligned lines H0 H9) in H. discriminate.
Qed.

Section Blocks.

Variables (lines pad : list string) (n r : nat).
Hypothesis Hpad : (List.length pad <= 1)%nat.
Hypothesis Hlen : (List.length lines + List.length pad = 10 * n)%nat.
Hypothesis Hr : (r < n)%nat.

Lemma block_line (j : nat) :
  (j < 9)%nat ->
  nth_error (firstn 9 (skipn (10 * r) (lines ++ pad))) j
  = nth_error lines (10 * r + j).
Proof.
  intros Hj. rewrite nth_error_firstn.
  destruct (Nat.ltb_spec j 9); [|lia].
  rewrite nth_error_skipn. apply nth_error_app1. lia.
Qed.

Lemma block_not_last :
  (S r <? n)%nat = (10 * r + 10 <? List.length lines)%nat.
Proof.
  destruct (Nat.ltb_spec (S r) n), (Nat.ltb_spec (10 * r + 10) (List.length lines));
    lia.
Qed.

(** One iteration of the loop, read on the lines of the file. *)
Lemma check_record_lines :
  exists separator,
    nth_error (lines ++ pad) (10 * r + 9) = Some separator /\
    check_record (lines ++ pad) (Z.of_nat r * 10) =
    if (10 * r + 10 <? List.length lines)%nat
       && negb (String.eqb separator "")
    then inr (Some (msg_missing_blank (Z.of_nat r + 1)))
    else inr (check_keys (Z.of_nat r + 1) 0 expected_keys
                         (firstn 9 (skipn (10 * r) (lines ++ pad)))).
Proof.
  assert (Hall : List.length (lines ++ pad) = (10 * n)%nat)
    by (rewrite length_app; lia).
  destruct (check_record_block (lines ++ pad) Hall Hr)
    as (separator & Hsep & Hrec).
  exists separator. split; [assumption|]. now rewrite <- block_not_last.
Qed.

Lemma block_keys_iff :
  check_keys (Z.of_nat r + 1) 0 expected_keys
             (firstn 9 (skipn (10 * r) (lines ++ pad))) = None
  <-> forall j, key_line_ok lines r j.
Proof.
  split.
  - intros Hnone j key Hkey.
    assert (Hj : (j < 9)%nat)
      by (apply (nth_error_Some expected_keys j); congruence).
    rewrite <- block_line by assumption.
    eapply check_keys_none; [exact Hnone| |exact Hkey].
    rewrite length_firstn, length_skipn, length_app.
    change (List.length expected_keys) with 9%nat. lia.
  - intros Hall. apply check_keys_all_ok. intros j key Hkey.
    assert (Hj : (j < 9)%nat)
      by (apply (nth_error_Some expected_keys j); congruence).
    rewrite block_line by assumption. now apply Hall.
Qed.

Lemma block_passes_iff :
  check_record (lines ++ pad) (Z.of_nat r * 10) = inr None
  <-> block_ok lines r.
Proof.
  destruct check_record_lines as (separator & Hsep & ->).
  unfold block_ok, separator_ok. rewrite <- block_keys_iff.
  destruct (Nat.ltb_spec (10 * r + 10) (List.length lines)) as [Hmore|Hlast].
  - rewrite nth_error_app1 in Hsep by lia. rewrite Hsep.
    destruct (String.eqb_spec separator "") as [->|Hne]; cbn [andb negb].
    + split; [intros H; injection H as H; now split|].
      intros [H _]. now rewrite H.
    + split; [discriminate|]. intros [_ H]. specialize (H Hmore). congruence.
  - cbn [andb]. split; [intros H; injection H as H; split; [assumption|lia]|].
    intros [H _]. now rewrite H.
Qed.

End Blocks.

(** The run of the validator on an aligned file, block by block. *)
Lemma validate_aligned lines :
  aligned lines ->
  exists n pad,
    (List.length pad <= 1)%nat /\
    (List.length lines + List.length pad = 10 * n)%nat /\
    validate_wine_reviews lines
    = check_records (lines ++ pad)
                    (map (fun k => (Z.of_nat k * 10)%Z) (seq 0 n)).
Proof.
  intros Ha. destruct (padded_shape Ha) as (n & pad & Hp & Hpad & Hlen).
  exists n, pad. split; [assumption|]. split; [assumption|].
  rewrite (@validate_blocks lines n) by (rewrite Hp, length_app; lia).
  now rewrite Hp.
Qed.

Lemma accepted_blocks lines msg :
  validate_wine_reviews lines = inr (true, msg) ->
  msg = msg_ok /\
  aligned lines /\
  forall r, (10 * r < List.length lines)%nat -> block_ok lines r.
Proof.
  intros H. pose proof (misaligned_rejected lines H) as Ha.
  destruct (validate_aligned Ha) as (n & pad & Hpad & Hlen & Hrun).
  rewrite Hrun in H. apply check_records_true in H as [-> Hall].
  split; [reflexivity|]. split; [assumption|]. intros r Hr.
  assert (Hrn : (r < n)%nat) by lia.
  apply (block_passes_iff lines pad Hpad Hlen Hrn).
  apply Hall, in_map_iff. exists r. split; [reflexivity|apply in_seq; lia].
Qed.

Lemma blocks_accepted lines :
  aligned lines ->
  (forall r, (10 * r < List.length lines)%nat -> block_ok lines r) ->
  validate_wine_reviews lines = inr (true, msg_ok).
Proof.
  intros Ha Hblocks.
  destruct (validate_aligned Ha) as (n & pad & Hpad & Hlen & ->).
  apply check_records_pass. intros i Hi.
  apply in_map_iff in Hi as (r & <- & Hr). apply in_seq in Hr.
  assert (Hrn : (r < n)%nat) by lia.
  apply (block_passes_iff lines pad Hpad Hlen Hrn), Hblocks. lia.
Qed.

(** X9: the validator accepts a file exactly when its line count is a
    multiple of 10 or one less and every block has its nine lines starting
    with the expected keys, in order, and is followed by a blank line
    unless it is the last block. The separator of the last block and the
    text after the colon are never looked at. *)
Theorem validate_accepts_iff lines :
  validate_wine_reviews lines = inr (true, msg_ok)
  <-> aligned lines /\
      forall r, (10 * r < List.length lines)%nat -> block_ok lines r.
Proof.
  split.
  - intros H. now destruct (accepted_blocks lines H) as (_ & Ha & Hb).
  - intros [Ha Hb]. now apply blocks_accepted.
Qed.

(** X10: the validator never raises: [lines[i + 9]] is always in range. *)
Theorem validate_never_raises lines :
  exists ok msg, validate_wine_reviews lines = inr (ok, msg).
Proof.
  destruct (validate_cases lines) as [[msg ->]|(n & Hlen & _ & _)]; [eauto|].
  rewrite (@validate_blocks lines n Hlen).
  assert (Hall : forall starts,
    (forall i, In i starts -> exists res, check_record (padded lines) i = inr res) ->
    exists ok msg, check_records (padded lines) starts = inr (ok, msg)).
  { induction starts as [|i starts IH]; intros Hs; [cbn; eauto|].
    cbn [check_records].
    destruct (Hs i (or_introl eq_refl)) as [[m|] ->]; [eauto|].
    apply IH. intros i' Hi'. apply Hs. now right. }
  apply Hall. intros i Hi. apply in_map_iff in Hi as (r & <- & Hr).
  apply in_seq in Hr.
  assert (Hrn : (r < n)%nat) by lia.
  destruct (check_record_block (padded lines) Hlen Hrn)
    as (separator & _ & ->).
  destruct (_ && _); eauto.
Qed.

(** X11: the tenth line of the last block is not inspected: in an accepted
    file whose line count is a multiple of 10, the last line can be
    replaced by any text and the file is still accepted. *)
Theorem last_separator_unchecked body old new :
  (List.length (body ++ [old]) mod 10 = 0)%nat ->
  validate_wine_reviews (body ++ [old]) = inr (true, msg_ok) ->
  validate_wine_reviews (body ++ [new]) = inr (true, msg_ok).
Proof.
  intros Hmod H. destruct (accepted_blocks _ H) as (_ & _ & Hblocks).
  rewrite length_app in Hmod. cbn [List.length] in Hmod.
  apply blocks_accepted.
  - left. rewrite length_app. cbn [List.length]. exact Hmod.
  - intros r Hr. rewrite length_app in Hr. cbn [List.length] in Hr.
    destruct (Hblocks r) as [Hkeys Hsep];
      [rewrite length_app; cbn [List.length]; lia|].
    split.
    + intros j key Hkey.
      assert (Hj : (j < 9)%nat)
        by (apply (nth_error_Some expected_keys j); congruence).
      destruct (Hkeys j key Hkey) as (line & Hline & Hok).
      exists line. split; [|assumption].
      assert (Hin : (10 * r + j < List.length (body ++ [old]))%nat)
        by (apply nth_error_Some; congruence).
      rewrite length_app in Hin. cbn [List.length] in Hin.
      rewrite nth_error_app1 in Hline |- * by lia_mod. exact Hline.
    + intros Hmore. rewrite length_app in Hmore. cbn [List.length] in Hmore.
      specialize (Hsep ltac:(rewrite length_app; cbn [List.length]; lia)).
      rewrite nth_error_app1 in Hsep |- * by lia. exact Hsep.
Qed.

(** The loop stops at the first block whose iteration fails. *)
Lemma first_failing_block lines pad (n r : nat) msg :
  (List.length pad <= 1)%nat ->
  (List.length lines + List.length pad = 10 * n)%nat ->
  (r < n)%nat ->
  (forall r', (r' < r)%nat -> block_ok lines r') ->
  check_record (lines ++ pad) (Z.of_nat r * 10) = inr (Some msg) ->
  check_records (lines ++ pad) (map (fun k => (Z.of_nat k * 10)%Z) (seq 0 n))
  = inr (false, msg).
Proof.
  intros Hpad Hlen Hr Hbefore Hfail.
  replace n with (r + S (n - S r))%nat by lia.
  rewrite seq_app, map_app. rewrite check_records_app.
  - cbn [seq map check_records Nat.add]. now rewrite Hfail.
  - intros i Hi. apply in_map_iff in Hi as (r' & <- & Hr').
    apply in_seq in Hr'.
    assert (Hrn : (r' < n)%nat) by lia.
    apply (block_passes_iff lines pad Hpad Hlen Hrn), Hbefore. lia.
Qed.

(** X12: the key error names the first offending line. When all blocks
    before block [r] are in order, the separator of block [r] is, and
    line [j] is the first line of block [r] that does not start with its
    key and a colon, the validator returns [False] with the message for
    record [r + 1], line [j + 1], the expected key and the text found
    before the first colon. *)
Theorem validate_reports_key lines (r j : nat) key line :
  aligned lines ->
  (forall r', (r' < r)%nat -> block_ok lines r') ->
  separator_ok lines r ->
  (forall j', (j' < j)%nat -> key_line_ok lines r j') ->
  nth_error expected_keys j = Some key ->
  nth_error lines (10 * r + j) = Some line ->
  startswith line (key ++ ":") = false ->
  validate_wine_reviews lines
  = inr (false, msg_key (Z.of_nat r + 1) (Z.of_nat j + 1) key line).
Proof.
  intros Ha Hbefore Hsep Hfirst Hkey Hline Hstart.
  destruct (validate_aligned Ha) as (n & pad & Hpad & Hlen & ->).
  assert (Hj : (j < 9)%nat)
    by (apply (nth_error_Some expected_keys j); congruence).
  assert (Hin : (10 * r + j < List.length lines)%nat)
    by (apply nth_error_Some; congruence).
  assert (Hrn : (r < n)%nat) by lia.
  apply (@first_failing_block lines pad n r); try assumption.
  destruct (check_record_lines lines pad Hpad Hlen Hrn)
    as (separator & Hsepline & ->).
  assert (Hcond : (10 * r + 10 <? List.length lines)%nat
                  && negb (String.eqb separator "") = false).
  { destruct (Nat.ltb_spec (10 * r + 10) (List.length lines)) as [Hmore|];
      [|reflexivity].
    rewrite nth_error_app1 in Hsepline by lia.
    rewrite (Hsep Hmore) in Hsepline. now injection Hsepline as <-. }
  rewrite Hcond. f_equal.
  rewrite (@check_keys_first_mismatch expected_keys _ _ 0%Z j key line);
    [reflexivity| |assumption| |assumption].
  - intros j' key' Hj' Hkey'.
    rewrite (block_line lines pad Hpad Hlen Hrn) by lia.
    now apply (Hfirst j' Hj').
  - now rewrite (block_line lines pad Hpad Hlen Hrn).
Qed.

(** X13: the separator is checked before the keys. When all blocks before
    block [r] are in order and block [r], which is not the last, is
    followed by a line that is not blank, the validator returns [False]
    with the message for record [r + 1], whatever the lines of block [r]
    are. *)
Theorem validate_reports_separator lines (r : nat) line :
  aligned lines ->
  (forall r', (r' < r)%nat -> block_ok lines r') ->
  (10 * r + 10 < List.length lines)%nat ->
  nth_error lines (10 * r + 9) = Some line ->
  line <> EmptyString ->
  validate_wine_reviews lines
  = inr (false, msg_missing_blank (Z.of_nat r + 1)).
Proof.
  intros Ha Hbefore Hmore Hline Hne.
  destruct (validate_aligned Ha) as (n & pad & Hpad & Hlen & ->).
  assert (Hrn : (r < n)%nat) by lia.
  apply (@first_failing_block lines pad n r); try assumption.
  destruct (check_record_lines lines pad Hpad Hlen Hrn)
    as (separator & Hsepline & ->).
  rewrite nth_error_app1 in Hsepline by lia.
  rewrite Hline in Hsepline. injection Hsepline as <-.
  destruct (Nat.ltb_spec (10 * r + 10) (List.length lines)); [|lia].
  destruct (String.eqb_spec line ""); [contradiction|reflexivity].
Qed.

Lemma validate_accepts_iff_witness :
  validate_wine_reviews (render [sample_record]) = inr (true, msg_ok) /\
  aligned (render [sample_record]) /\
  forall r, (10 * r < List.length (render [sample_record]))%nat ->
            block_ok (render [sample_record]) r.
Proof.
  assert (H : validate_wine_reviews (render [sample_record])
              = inr (true, msg_ok)) by reflexivity.
  split; [exact H|].
  exact (proj1 (validate_accepts_iff (render [sample_record])) H).
Defined.

Lemma last_separator_unchecked_witness :
  (List.length (sample_record ++ [EmptyString]) mod 10 = 0)%nat /\
  validate_wine_reviews (sample_record ++ [EmptyString])
  = inr (true, msg_ok) /\
  validate_wine_reviews (sample_record ++ ["not checked"%string])
  = inr (true, msg_ok).
Proof.
  split; [reflexivity|]. split; [reflexivity|].
  apply (@last_separator_unchecked sample_record EmptyString
           "not checked"%string); reflexivity.
Defined.

Lemma sample_block_ok (rest : list string) :
  forall j, key_line_ok (sample_record ++ rest) 0 j.
Proof.
  intros j key Hkey.
  do 9 (destruct j as [|j];
        [injection Hkey as <-; eexists; split; reflexivity|]).
  destruct j; discriminate.
Qed.

Lemma validate_reports_key_witness :
  validate_wine_reviews
    (render [sample_record; "review/text: late"%string :: tl sample_record])
  = inr (false,
         "Record 2, line 1 expected key 'wine/name' but found 'review/text'"%string).
Proof.
  apply (@validate_reports_key
           (render [sample_record;
                    "review/text: late"%string :: tl sample_record])
           1%nat 0%nat "wine/name"%string "review/text: late"%string).
  - left. reflexivity.
  - intros r' Hr'. assert (r' = 0)%nat as -> by lia. split.
    + apply (sample_block_ok
               (EmptyString
                  :: render ["review/text: late"%string :: tl sample_record])).
    + intros _. reflexivity.
  - intros H. cbn in H. lia.
  - intros j' Hj'. lia.
  - reflexivity.
  - reflexivity.
  - reflexivity.
Defined.

Lemma validate_reports_separator_witness :
  validate_wine_reviews
    (sample_record ++ "not blank"%string :: render [sample_record])
  = inr (false, "Missing blank line after record 1."%string).
Proof.
  apply (@validate_reports_separator
           (sample_record ++ "not blank"%string :: render [sample_record])
           0%nat "not blank"%string).
  - left. reflexivity.
  - intros r' Hr'. lia.
  - cbn. lia.
  - reflexivity.
  - discriminate.
Defined.

(** ** [str.strip] and [str.split] *)

Lemma rstrip_idempotent s : rstrip (rstrip s) = rstrip s.
Proof.
  induction s as [|c s IH]; [reflexivity|]. cbn [rstrip].
  destruct (is_space c) eqn:Hc.
  - destruct (rstrip s) as [|c' kept] eqn:Hs; [reflexivity|].
    cbn [rstrip]. rewrite Hc. cbn [rstrip] in IH. now rewrite IH.
  - cbn [rstrip]. now rewrite Hc, IH.
Qed.

Lemma strip_rstrip s : strip (rstrip s) = strip s.
Proof. unfold strip. now rewrite rstrip_idempotent. Qed.

Lemma key_char_first c k :
  all_chars key_char (String c k) = true ->
  is_space c = false /\ Ascii.eqb c ":" = false /\
  all_chars key_char k = true.
Proof.
  cbn [all_chars]. intros H. apply andb_prop in H as [Hc Hk].
  unfold key_char in Hc. apply andb_prop in Hc as [Hs Hcolon].
  apply negb_true_iff in Hs. apply negb_true_iff in Hcolon. auto.
Qed.

Lemma rstrip_key key : forall rest,
  all_chars key_char key = true ->
  rstrip (key ++ String ":" rest) = (key ++ String ":" (rstrip rest))%string.
Proof.
  induction key as [|c k IH]; intros rest Hkey; cbn [append rstrip].
  - reflexivity.
  - destruct (@key_char_first c k Hkey) as (Hs & _ & Hk).
    now rewrite Hs, IH.
Qed.

Lemma rstrip_key_alone key :
  all_chars key_char key = true -> rstrip key = key.
Proof.
  induction key as [|c k IH]; intros Hkey; [reflexivity|]. cbn [rstrip].
  destruct (@key_char_first c k Hkey) as (Hs & _ & Hk). now rewrite Hs, IH.
Qed.

Lemma lstrip_key key rest :
  all_chars key_char key = true ->
  lstrip (key ++ String ":" rest) = (key ++ String ":" rest)%string.
Proof.
  intros Hkey. destruct key as [|c k]; [reflexivity|]. cbn [append lstrip].
  destruct (@key_char_first c k Hkey) as (Hs & _ & _). now rewrite Hs.
Qed.

Lemma strip_key_line key rest :
  all_chars key_char key = true ->
  strip (key ++ String ":" rest) = (key ++ String ":" (rstrip rest))%string.
Proof. intros Hkey. unfold strip. now rewrite rstrip_key, lstrip_key. Qed.

Lemma strip_key key : all_chars key_char key = true -> strip key = key.
Proof.
  intros Hkey. unfold strip. rewrite rstrip_key_alone by assumption.
  destruct key as [|c k]; [reflexivity|]. cbn [lstrip].
  destruct (@key_char_first c k Hkey) as (Hs & _ & _). now rewrite Hs.
Qed.

Lemma split_key key : forall rest,
  all_chars key_char key = true ->
  contains ":" (key ++ String ":" rest) = true /\
  before_first ":" (key ++ String ":" rest) = key /\
  after_first ":" (key ++ String ":" rest) = rest.
Proof.
  induction key as [|c k IH]; intros rest Hkey;
    cbn [append contains before_first after_first].
  - repeat split.
  - destruct (@key_char_first c k Hkey) as (_ & Hcolon & Hk).
    rewrite Hcolon. cbn [orb].
    destruct (IH rest Hk) as (H1 & H2 & H3). now rewrite H1, H2, H3.
Qed.

Lemma key_line_not_blank key rest :
  String.eqb (key ++ String ":" rest) "" = false.
Proof. destruct key; reflexivity. Qed.

Lemma startswith_key key : forall line,
  startswith line (key ++ ":") = true ->
  exists rest, line = (key ++ String ":" rest)%string.
Proof.
  unfold startswith.
  induction key as [|c k IH]; intros line H; cbn [append] in *.
  - destruct line as [|b line]; [discriminate|]. cbn [String.prefix] in H.
    destruct (ascii_dec ":" b) as [<-|]; [eauto|discriminate].
  - destruct line as [|b line]; [discriminate|]. cbn [String.prefix] in H.
    destruct (ascii_dec c b) as [<-|]; [|discriminate].
    destruct (IH line H) as [rest ->]. eauto.
Qed.

Lemma expected_keys_chars :
  Forall (fun key => all_chars key_char key = true) expected_keys.
Proof. repeat constructor. Qed.

(** ** [load_wine_data]: the loop over the lines *)

Section LoaderFacts.

Variable unescape : string -> string.

Lemma load_step_key records current key rest :
  all_chars key_char key = true ->
  load_step unescape (records, current) (key ++ String ":" rest)
  = (records, dict_set current key (unescape (strip rest))).
Proof.
  intros Hkey. unfold load_step.
  rewrite (@strip_key_line key rest Hkey), key_line_not_blank.
  destruct (@split_key key (rstrip rest) Hkey) as (-> & -> & ->).
  now rewrite (@strip_key key Hkey), strip_rstrip.
Qed.

Lemma load_step_blank records current sep :
  strip sep = EmptyString ->
  load_step unescape (records, current) sep
  = match current with
    | [] => (records, [])
    | _ :: _ => (records ++ [current], [])
    end.
Proof.
  intros Hsep. unfold load_step. rewrite Hsep. cbn.
  destruct current; reflexivity.
Qed.

(** The nine lines of a record, read into an empty dict. *)
Lemma load_record records record :
  keyed_record record ->
  fold_left (load_step unescape) record (records, [])
  = (records, record_dict unescape record).
Proof.
  unfold keyed_record, expected_keys. intros H.
  repeat match goal with
         | H : Forall2 _ _ _ |- _ => inversion H; clear H; subst
         end.
  repeat match goal with
         | H : startswith _ _ = true |- _ =>
             apply startswith_key in H as [? ->]
         end.
  cbn [fold_left].
  rewrite !load_step_key by reflexivity.
  reflexivity.
Qed.

Lemma record_dict_not_empty record :
  keyed_record record -> record_dict unescape record <> [].
Proof.
  unfold keyed_record, expected_keys. intros H.
  inversion H; subst. discriminate.
Qed.

(** A sequence of records, each followed by a blank line. *)
Lemma load_blocks sep records : forall done,
  strip sep = EmptyString ->
  Forall keyed_record records ->
  fold_left (load_step unescape)
            (List.concat (map (fun record => record ++ [sep]) records))
            (done, [])
  = (done ++ map (record_dict unescape) records, []).
Proof.
  induction records as [|record records IH]; intros done Hsep Hall.
  - cbn. now rewrite app_nil_r.
  - inversion Hall as [|? ? Hrec Hrest]; subst.
    cbn [map List.concat]. rewrite !fold_left_app.
    rewrite (@load_record done record Hrec). cbn [fold_left].
    rewrite (@load_step_blank done _ sep Hsep).
    destruct (record_dict unescape record) as [|entry entries] eqn:Hd;
      [now apply record_dict_not_empty in Hd|].
    rewrite IH by assumption. now rewrite <- app_assoc.
Qed.

End LoaderFacts.

Lemma dict_set_keys d : forall key value,
  dict_set d key value <> [] /\
  (NoDup (map fst d) -> NoDup (map fst (dict_set d key value))) /\
  (forall k, In k (map fst (dict_set d key value)) ->
             k = key \/ In k (map fst d)).
Proof.
  induction d as [|[k v] d IH]; intros key value; cbn [dict_set].
  - repeat split; [discriminate|intros _; repeat constructor; easy|].
    intros k [<-|[]]. now left.
  - destruct (String.eqb_spec k key) as [->|Hne].
    + repeat split; [discriminate|auto|]. intros k Hk. now right.
    + destruct (IH key value) as (_ & Hnodup & Hin).
      repeat split; [discriminate| |].
      * cbn [map fst]. intros Hd. inversion Hd as [|? ? Hnotin Hd']; subst.
        constructor; [|auto]. intros Hk. destruct (Hin k Hk); [congruence|auto].
      * cbn [map fst]. intros k' [<-|Hk']; [right; now left|].
        destruct (Hin k' Hk'); [now left|right; now right].
Qed.

Section LoaderClaims.

Variable unescape : string -> string.

(** What the loop keeps true of [(records, current_record)]. *)
Lemma load_step_invariant (state : list dict * dict) line :
  Forall (fun d => d <> [] /\ NoDup (map fst d)) (fst state) ->
  NoDup (map fst (snd state)) ->
  Forall (fun d => d <> [] /\ NoDup (map fst d))
         (fst (load_step unescape state line)) /\
  NoDup (map fst (snd (load_step unescape state line))).
Proof.
  destruct state as [records current]. cbn [fst snd]. intros Hrec Hcur.
  unfold load_step.
  destruct (String.eqb (strip line) "").
  - destruct current as [|entry current]; cbn [fst snd].
    + split; assumption.
    + split; [|constructor]. apply Forall_app. split; [assumption|].
      constructor; [|constructor]. split; [discriminate|assumption].
  - destruct (contains ":" (strip line)); cbn [fst snd];
      [|split; assumption].
    split; [assumption|]. now apply dict_set_keys.
Qed.

(** X14: whatever the lines, every record that the loop of
    [load_wine_data] collects has at least one key, and no key twice. *)
Theorem load_records_dicts file :
  Forall (fun record => record <> [] /\ NoDup (map fst record))
         (load_records unescape file).
Proof.
  unfold load_records.
  assert (Hinv : forall lines (state : list dict * dict),
    Forall (fun d => d <> [] /\ NoDup (map fst d)) (fst state) ->
    NoDup (map fst (snd state)) ->
    Forall (fun d => d <> [] /\ NoDup (map fst d))
           (fst (fold_left (load_step unescape) lines state)) /\
    NoDup (map fst (snd (fold_left (load_step unescape) lines state)))).
  { induction lines as [|line lines IH]; intros state Hrec Hcur;
      [split; assumption|].
    cbn [fold_left].
    destruct (load_step_invariant state line Hrec Hcur) as [Hrec' Hcur'].
    now apply IH. }
  destruct (Hinv file ([], [])) as [Hrec Hcur]; [constructor|constructor|].
  destruct (fold_left (load_step unescape) file ([], []))
    as [records current].
  cbn [fst snd] in Hrec, Hcur.
  destruct current as [|entry current]; [exact Hrec|].
  apply Forall_app. split; [exact Hrec|].
  constructor; [|constructor]. split; [discriminate|exact Hcur].
Qed.

(** X15: a file of records whose nine lines start with the expected keys
    and a colon, each record followed by a blank line (any line that is
    empty when stripped), is read into one dict per record, in order, with
    the nine keys in order and, for each, the text after the first colon,
    stripped and unescaped. The blank line after the last record may be
    missing. *)
Theorem load_records_keyed sep records :
  strip sep = EmptyString ->
  Forall keyed_record records ->
  load_records unescape
    (List.concat (map (fun record => record ++ [sep]) records))
  = map (record_dict unescape) records /\
  (records <> [] ->
   load_records unescape
     (removelast (List.concat (map (fun record => record ++ [sep]) records)))
   = map (record_dict unescape) records).
Proof.
  intros Hsep Hall. split.
  - unfold load_records. now rewrite (@load_blocks unescape sep records [] Hsep Hall).
  - intros Hne. destruct (exists_last Hne) as (records' & record & ->).
    apply Forall_app in Hall as [Hall' Hlast].
    inversion Hlast as [|? ? Hrec _]; subst.
    rewrite map_app, concat_app. cbn [map List.concat].
    rewrite app_nil_r, app_assoc, removelast_last.
    unfold load_records. rewrite fold_left_app.
    rewrite (@load_blocks unescape sep records' [] Hsep Hall').
    rewrite (@load_record unescape _ record Hrec). cbn [app].
    destruct (record_dict unescape record) as [|entry entries] eqn:Hd;
      [now apply record_dict_not_empty in Hd|].
    rewrite map_app. cbn [map]. now rewrite Hd.
Qed.

End LoaderClaims.

Lemma append_assoc_string (a b c : string) :
  ((a ++ b) ++ c = a ++ (b ++ c))%string.
Proof. induction a as [|x a IH]; cbn [append]; [reflexivity|now rewrite IH]. Qed.

Lemma startswith_key_line key rest :
  startswith (key ++ String ":" rest) (key ++ ":") = true.
Proof.
  unfold startswith. induction key as [|c k IH]; cbn [append String.prefix].
  - destruct (ascii_dec ":" ":"); [|congruence]. now destruct rest.
  - destruct (ascii_dec c c); [exact IH|congruence].
Qed.

(** ** From the validator to the loader *)

Section TenBlocks.

Variable A : Type.
Implicit Types (l : list A).

Lemma firstn_succ_nth_error l : forall k x,
  nth_error l k = Some x -> firstn (S k) l = firstn k l ++ [x].
Proof.
  induction l as [|a l IH]; intros k x H; [destruct k; discriminate|].
  destruct k as [|k]; cbn in H.
  - now injection H as ->.
  - cbn [firstn app]. f_equal. now apply IH.
Qed.

(** A list of [10 * n] elements, cut into [n] blocks of nine elements and a
    tenth. *)
Lemma ten_blocks l (n : nat) (tenth : nat -> A) :
  List.length l = (10 * n)%nat ->
  (forall r, (r < n)%nat -> nth_error l (10 * r + 9) = Some (tenth r)) ->
  l = List.concat
        (map (fun r => firstn 9 (skipn (10 * r) l) ++ [tenth r]) (seq 0 n)).
Proof.
  intros Hlen Htenth.
  rewrite <- (@concat_windows A 10 n l) at 1 by lia.
  f_equal. apply map_ext_in. intros r Hr. apply in_seq in Hr.
  unfold window_at. rewrite (Nat.mul_comm r 10).
  apply firstn_succ_nth_error.
  rewrite nth_error_skipn. apply Htenth. lia.
Qed.

End TenBlocks.

Lemma keyed_from_lines lines pad (n r : nat) :
  (List.length pad <= 1)%nat ->
  (List.length lines + List.length pad = 10 * n)%nat ->
  (r < n)%nat ->
  (forall j, key_line_ok lines r j) ->
  keyed_record (firstn 9 (skipn (10 * r) (lines ++ pad))).
Proof.
  intros Hpad Hlen Hr Hkeys. unfold keyed_record.
  assert (Hnine : List.length (firstn 9 (skipn (10 * r) (lines ++ pad)))
                  = 9%nat)
    by (rewrite length_firstn, length_skipn, length_app; lia).
  assert (Hline : forall j key,
    nth_error expected_keys j = Some key ->
    exists line,
      nth_error (firstn 9 (skipn (10 * r) (lines ++ pad))) j = Some line /\
      startswith line (key ++ ":") = true).
  { intros j key Hkey.
    assert (Hj : (j < 9)%nat)
      by (apply (nth_error_Some expected_keys j); congruence).
    rewrite (block_line lines pad Hpad Hlen Hr) by assumption.
    now apply Hkeys. }
  revert Hnine Hline. generalize (firstn 9 (skipn (10 * r) (lines ++ pad))).
  unfold expected_keys. intros record Hnine Hline.
  do 9 (destruct record as [|? record]; [discriminate|]).
  destruct record; [|discriminate].
  repeat constructor.
  - destruct (Hline 0%nat _ eq_refl) as (? & [= <-] & ?); assumption.
  - destruct (Hline 1%nat _ eq_refl) as (? & [= <-] & ?); assumption.
  - destruct (Hline 2%nat _ eq_refl) as (? & [= <-] & ?); assumption.
  - destruct (Hline 3%nat _ eq_refl) as (? & [= <-] & ?); assumption.
  - destruct (Hline 4%nat _ eq_refl) as (? & [= <-] & ?); assumption.
  - destruct (Hline 5%nat _ eq_refl) as (? & [= <-] & ?); assumption.
  - destruct (Hline 6%nat _ eq_refl) as (? & [= <-] & ?); assumption.
  - destruct (Hline 7%nat _ eq_refl) as (? & [= <-] & ?); assumption.
  - destruct (Hline 8%nat _ eq_refl) as (? & [= <-] & ?); assumption.
Qed.

Lemma with_newlines_blocks records :
  with_newlines (render records)
  = List.concat (map (fun record => record ++ [newline])
                     (map with_newlines records)).
Proof.
  unfold with_newlines, render. rewrite concat_map, !map_map.
  f_equal. apply map_ext. intros record. now rewrite map_app.
Qed.

Lemma keyed_with_newlines record :
  keyed_record record -> keyed_record (with_newlines record).
Proof.
  unfold keyed_record. generalize expected_keys.
  induction record as [|line record IH]; intros keys H;
    inversion H; subst; cbn [with_newlines map]; constructor.
  - match goal with
    | Hs : startswith line _ = true |- _ =>
        apply startswith_key in Hs as [rest ->]
    end.
    rewrite append_assoc_string. apply startswith_key_line.
  - now apply IH.
Qed.

Lemma record_dict_keys unescape record :
  keyed_record record -> map fst (record_dict unescape record) = expected_keys.
Proof.
  intros H. unfold record_dict.
  pose proof (Forall2_length H) as Hlen.
  revert Hlen. generalize expected_keys.
  intros keys Hlen.
  assert (Hmap : List.length keys
                 = List.length (map (fun line =>
                     unescape (strip (after_first ":" line))) record))
    by now rewrite length_map.
  revert Hmap. generalize (map (fun line =>
                     unescape (strip (after_first ":" line))) record).
  clear. induction keys as [|k keys IH]; intros vals Hlen;
    destruct vals; try discriminate; [reflexivity|].
  cbn [combine map fst]. f_equal. apply IH. now injection Hlen.
Qed.

Section Composition.

Variable unescape : string -> string.

(** The records of an accepted file whose last separator, if it is there,
    is blank. *)
Lemma accepted_records lines :
  validate_wine_reviews lines = inr (true, msg_ok) ->
  (forall r, (10 * r + 10 = List.length lines)%nat ->
             nth_error lines (10 * r + 9) = Some EmptyString) ->
  exists records pad,
    Forall keyed_record records /\
    (10 * List.length records = List.length lines + List.length pad)%nat /\
    (pad = [] \/ pad = [EmptyString]) /\
    lines ++ pad = render records.
Proof.
  intros Hok Hlast.
  destruct (accepted_blocks lines Hok) as (_ & Ha & Hblocks).
  destruct (padded_shape Ha) as (n & pad & Hp & Hpad & Hlen).
  assert (Hpadded : pad = [] \/ pad = [EmptyString]).
  { unfold padded in Hp.
    destruct (((Z.of_nat (List.length lines) + 1) mod 10 =? 0)%Z).
    - apply app_inv_head in Hp. now right.
    - left. rewrite <- (app_nil_r lines) in Hp at 1.
      now apply app_inv_head in Hp. }
  exists (map (fun r => firstn 9 (skipn (10 * r) (lines ++ pad))) (seq 0 n)),
         pad.
  split; [|split; [|split; [assumption|]]].
  - apply Forall_map, Forall_forall. intros r Hr. apply in_seq in Hr.
    apply (@keyed_from_lines lines pad n r Hpad Hlen); [lia|].
    apply Hblocks. lia.
  - rewrite length_map, length_seq. lia.
  - unfold render. rewrite map_map.
    apply (@ten_blocks string (lines ++ pad) n (fun _ => EmptyString)).
    + rewrite length_app. lia.
    + intros r Hr.
      destruct (Nat.lt_trichotomy (10 * r + 10) (List.length lines))
        as [Hlt|[Heq|Hgt]].
      * rewrite nth_error_app1 by lia.
        destruct (Hblocks r ltac:(lia)) as [_ Hsep]. now apply Hsep.
      * rewrite nth_error_app1 by lia. now apply Hlast.
      * destruct Hpadded as [->| ->]; cbn [List.length] in Hlen; [lia|].
        rewrite nth_error_app2 by lia.
        replace (10 * r + 9 - List.length lines)%nat with 0%nat by lia.
        reflexivity.
Qed.

(** X17: an accepted file can be loaded. When the validator accepts the
    lines of a file and the separator of the last block, if it is there,
    is blank, the loop of [load_wine_data] over these lines, with their
    line feeds, collects one record per block, and every record has
    exactly the nine expected keys, in order. *)
Theorem accepted_file_loads lines :
  validate_wine_reviews lines = inr (true, msg_ok) ->
  (forall r, (10 * r + 10 = List.length lines)%nat ->
             nth_error lines (10 * r + 9) = Some EmptyString) ->
  List.length (load_records unescape (with_newlines lines))
  = ((List.length lines + 1) / 10)%nat /\
  Forall (fun record => map fst record = expected_keys)
         (load_records unescape (with_newlines lines)).
Proof.
  intros Hok Hlast.
  destruct (accepted_records lines Hok Hlast)
    as (records & pad & Hkeyed & Hlen & Hpad & Hrender).
  assert (Hkeyed' : Forall keyed_record (map with_newlines records))
    by (apply Forall_map; revert Hkeyed; apply Forall_impl;
        exact keyed_with_newlines).
  assert (Hload :
    load_records unescape (with_newlines lines)
    = map (record_dict unescape) (map with_newlines records)).
  { destruct Hpad as [->| ->].
    - rewrite app_nil_r in Hrender. rewrite Hrender, with_newlines_blocks.
      unfold load_records.
      now rewrite (@load_blocks unescape newline _ [] eq_refl Hkeyed').
    - assert (Hne : map with_newlines records <> []).
      { destruct records; [|discriminate].
        cbn in Hrender. now destruct lines. }
      assert (Hfile : with_newlines lines
                      = removelast (with_newlines (render records))).
      { rewrite <- Hrender. unfold with_newlines. rewrite map_app.
        cbn [map]. now rewrite removelast_last. }
      rewrite Hfile, with_newlines_blocks.
      destruct (exists_last Hne) as (records' & record & Hsplit).
      rewrite Hsplit in Hkeyed' |- *.
      apply Forall_app in Hkeyed' as [Hall' Hrec].
      inversion Hrec as [|? ? Hrecord _]; subst.
      rewrite map_app, concat_app. cbn [map List.concat].
      rewrite app_nil_r, app_assoc, removelast_last.
      unfold load_records. rewrite fold_left_app.
      rewrite (@load_blocks unescape newline records' [] eq_refl Hall').
      rewrite (@load_record unescape _ record Hrecord). cbn [app].
      destruct (record_dict unescape record) as [|entry entries] eqn:Hd;
        [now apply record_dict_not_empty in Hd|].
      rewrite map_app. cbn [map]. now rewrite Hd. }
  rewrite Hload. split.
  - rewrite !length_map. destruct Hpad as [->| ->];
      cbn [List.length] in Hlen; lia_mod.
  - apply Forall_map, Forall_forall. intros record Hin.
    apply record_dict_keys.
    apply (proj1 (Forall_forall _ _) Hkeyed' record Hin).
Qed.

End Composition.

(** ** Rating bands *)

(** X18: each band is returned on exactly one interval of scores. The
    lowest band takes every score below 60, also below 50, and the highest
    every score from 95 on, also above 100. *)
Theorem assign_rating_band_intervals (points : Z) :
  (assign_rating_band points = "50-59 (Very Poor)"%string
   <-> (points < 60)%Z) /\
  (assign_rating_band points = "60-69 (Poor)"%string
   <-> (60 <= points < 70)%Z) /\
  (assign_rating_band points = "70-79 (Average)"%string
   <-> (70 <= points < 80)%Z) /\
  (assign_rating_band points = "80-84 (Good)"%string
   <-> (80 <= points < 85)%Z) /\
  (assign_rating_band points = "85-89 (Very Good)"%string
   <-> (85 <= points < 90)%Z) /\
  (assign_rating_band points = "90-94 (Excellent)"%string
   <-> (90 <= points < 95)%Z) /\
  (assign_rating_band points = "95-100 (Perfect)"%string
   <-> (95 <= points)%Z).
Proof.
  unfold assign_rating_band.
  destruct (Z.ltb_spec points 60); [|destruct (Z.ltb_spec points 70);
    [|destruct (Z.ltb_spec points 80); [|destruct (Z.ltb_spec points 85);
      [|destruct (Z.ltb_spec points 90); [|destruct (Z.ltb_spec points 95)]]]]];
    repeat split; intros; try lia; try discriminate; reflexivity.
Qed.

(** ** Examples for the loader *)

Lemma sample_is_keyed : keyed_record sample_record.
Proof. unfold keyed_record. repeat constructor. Qed.

Lemma load_records_keyed_witness :
  strip newline = EmptyString /\
  Forall keyed_record [sample_record; sample_record] /\
  load_records (fun s => s)
    (List.concat (map (fun record => record ++ [newline])
                      [sample_record; sample_record]))
  = map (record_dict (fun s => s)) [sample_record; sample_record] /\
  load_records (fun s => s)
    (removelast
       (List.concat (map (fun record => record ++ [newline])
                         [sample_record; sample_record])))
  = map (record_dict (fun s => s)) [sample_record; sample_record].
Proof.
  assert (Hall : Forall keyed_record [sample_record; sample_record])
    by (constructor;
        [apply sample_is_keyed
        |constructor; [apply sample_is_keyed|constructor]]).
  split; [reflexivity|]. split; [exact Hall|].
  destruct (@load_records_keyed (fun s => s) newline
              [sample_record; sample_record] eq_refl Hall) as [Hfull Hshort].
  split; [exact Hfull|]. apply Hshort. discriminate.
Defined.

Lemma accepted_file_loads_witness :
  validate_wine_reviews (render [sample_record; sample_record])
  = inr (true, msg_ok) /\
  List.length
    (load_records (fun s => s)
       (with_newlines (render [sample_record; sample_record])))
  = ((List.length (render [sample_record; sample_record]) + 1) / 10)%nat /\
  Forall (fun record => map fst record = expected_keys)
    (load_records (fun s => s)
       (with_newlines (render [sample_record; sample_record]))).
Proof.
  assert (Hok : validate_wine_reviews (render [sample_record; sample_record])
                = inr (true, msg_ok)) by reflexivity.
  split; [exact Hok|].
  apply (@accepted_file_loads (fun s => s) _ Hok).
  intros r Hr. cbn in Hr. assert (r = 1)%nat as -> by lia. reflexivity.
Defined.

(** ** Lines the loader passes over *)

Section LoaderSkips.

Variable unescape : string -> string.

(** X19: a line that is not blank and holds no colon is ignored wherever it
    stands: the records are those of the file without it. *)
Theorem load_records_skips_plain_line before line after :
  strip line <> EmptyString ->
  contains ":" (strip line) = false ->
  load_records unescape (before ++ line :: after)
  = load_records unescape (before ++ after).
Proof.
  intros Hne Hplain. unfold load_records.
  rewrite !fold_left_app. cbn [fold_left].
  assert (Hstep : forall state, load_step unescape state line = state).
  { intros [records current]. unfold load_step.
    destruct (String.eqb_spec (strip line) ""); [contradiction|].
    now rewrite Hplain. }
  now rewrite Hstep.
Qed.

(** X20: blank lines in a row count as one: a second blank line right
    after a blank line changes nothing, so no empty record is made. *)
Theorem load_records_blank_run before blank1 blank2 after :
  strip blank1 = EmptyString ->
  strip blank2 = EmptyString ->
  load_records unescape (before ++ blank1 :: blank2 :: after)
  = load_records unescape (before ++ blank1 :: after).
Proof.
  intros H1 H2. unfold load_records.
  rewrite !fold_left_app. cbn [fold_left].
  destruct (fold_left (load_step unescape) before ([], []))
    as [records current].
  rewrite (@load_step_blank unescape records current blank1 H1).
  destruct current as [|entry current];
    now rewrite (@load_step_blank unescape _ [] blank2 H2).
Qed.

End LoaderSkips.

Lemma load_records_skips_plain_line_witness :
  strip "no colon here"%string <> EmptyString /\
  contains ":" (strip "no colon here"%string) = false /\
  load_records (fun s => s)
    (["wine/name: A"%string] ++ "no colon here"%string
       :: ["wine/year: 2001"%string])
  = load_records (fun s => s)
      (["wine/name: A"%string] ++ ["wine/year: 2001"%string]).
Proof.
  split; [discriminate|]. split; [reflexivity|].
  apply (@load_records_skips_plain_line (fun s => s)
           ["wine/name: A"%string] "no colon here"%string
           ["wine/year: 2001"%string]);
    [discriminate|reflexivity].
Defined.

Lemma load_records_blank_run_witness :
  strip newline = EmptyString /\
  strip "  "%string = EmptyString /\
  load_records (fun s => s)
    (["wine/name: A"%string] ++ newline :: "  "%string
       :: ["wine/name: B"%string])
  = load_records (fun s => s)
      (["wine/name: A"%string] ++ newline :: ["wine/name: B"%string]).
Proof.
  split; [reflexivity|]. split; [reflexivity|].
  apply (@load_records_blank_run (fun s => s)
           ["wine/name: A"%string] newline "  "%string
           ["wine/name: B"%string]); reflexivity.
Defined.
